(** * Semiotic blog: the post resolver and the listing partition

    A shallow embedding of the two data modules ([@/data/blogPosts],
    [@/data/blogContent]) and of the two components that consume them
    (the [BlogPost] page, which joins both tables by the URL slug, and
    [BlogGrid], which splits the catalog into a featured card and the rest).

    JavaScript strings are kept as Rocq [string]s (UTF-8 bytes of the source
    text); a template literal's escaped back-tick is the back-tick itself. *)

From Stdlib Require Import List.
From stdpp Require Import gmap strings list fin_maps.

(** ** JavaScript values met by the lookups *)

Module JS.

(** What [obj[key]] can evaluate to on a [Record<string, string>] created by
    an object literal: nothing, an own string property, or a member that the
    object inherits from [Object.prototype] (a function, or the prototype
    object itself for [__proto__]). *)
Inductive value : Type :=
| Undefined
| Str (s : string)
| Inherited (member : string).

(** ToBoolean: [undefined] and the empty string are falsy; functions and
    objects are truthy. *)
Definition truthy (v : value) : bool :=
  match v with
  | Undefined => false
  | Str s => negb (String.eqb s "")
  | Inherited _ => true
  end.

(** The property names of [Object.prototype] (ECMAScript, Annex B
    included). *)
Definition object_prototype_members : list string :=
  [ "constructor"; "hasOwnProperty"; "isPrototypeOf";
    "propertyIsEnumerable"; "toLocaleString"; "toString"; "valueOf";
    "__proto__"; "__defineGetter__"; "__defineSetter__";
    "__lookupGetter__"; "__lookupSetter__" ].

Definition on_prototype (key : string) : bool :=
  existsb (String.eqb key) object_prototype_members.

(** [obj[key]]: own properties first, then the prototype chain. *)
Definition get (own : gmap string string) (key : string) : value :=
  match own !! key with
  | Some s => Str s
  | None => if on_prototype key then Inherited key else Undefined
  end.

(** An object literal [{ k1: v1, ..., kn: vn }] with string values:
    properties are defined left to right, a repeated key keeps the last
    value, and a [__proto__] entry defines no property (it would set the
    prototype, and does nothing for a string). *)
Definition object_literal (props : list (string * string)) : gmap string string :=
  fold_left
    (fun o kv => if String.eqb kv.1 "__proto__" then o else <[ kv.1 := kv.2 ]> o)
    props ∅.

(** [s === slug] for a string [s] and a [string | undefined] operand. *)
Definition strict_eq (s : string) (slug : option string) : bool :=
  match slug with
  | Some t => String.eqb s t
  | None => false
  end.

(** Truthiness of a [string | undefined]. *)
Definition truthy_slug (slug : option string) : bool :=
  match slug with
  | Some t => negb (String.eqb t "")
  | None => false
  end.

(** Truthiness of an optional boolean field ([featured?: boolean]). *)
Definition truthy_flag (b : option bool) : bool :=
  match b with
  | Some true => true
  | _ => false
  end.

End JS.

(** ** The catalog, [src/data/blogPosts.ts] *)

(** [image] holds the module specifier of the imported asset: the handle the
    bundler turns it into is opaque to both components. *)
Record BlogPost : Type := {
  id : string;
  title : string;
  excerpt : string;
  category : string;
  image : string;
  url : string;
  featured : option bool
}.

Definition dquote : string := String (Ascii.ascii_of_nat 34) EmptyString.
Definition post_cctp_rs : BlogPost := {|
  id := "cctp-rs";
  title := "Building cctp-rs: A Production-Grade Rust SDK for Cross-Chain USDC Transfers";
  excerpt := "How we built an open-source library that's moved millions in USDC across blockchains. At Semiotic, we often find ourselves building infrastructure that doesn't exist yet.";
  category := "Payments & Settlement";
  image := "@/assets/blog/cctp-rs.png";
  url := "https://blog-semiotic.ghost.io/building-cctp-rs-a-production-grade-rust-sdk-for-cross-chain-usdc-transfers/";
  featured := Some true
|}.

Definition post_verifiable_extraction : BlogPost := {|
  id := "verifiable-extraction";
  title := "Verifiable Extraction in The Graph";
  excerpt := "We discuss the methodology that Semiotic Labs uses to verify that blockchain data extracted from some source matches the history of the chain.";
  category := "Cryptography & Security";
  image := "@/assets/blog/verifiable-extraction.png";
  url := "https://blog-semiotic.ghost.io/verifiable-extraction-in-the-graph/";
  featured := None
|}.

Definition post_homomorphic_signatures : BlogPost := {|
  id := "homomorphic-signatures";
  title := "Homomorphic Signatures for Payment Channels";
  excerpt := "This post discusses design and optimization of verifiable micropayments over a state channel, a feature of Semiotic Labs' GraphTally library for The Graph.";
  category := "Cryptography & Security";
  image := "@/assets/blog/homomorphic-signatures.png";
  url := "https://blog-semiotic.ghost.io/homomorphic-signatures-for-payment-channels/";
  featured := None
|}.

Definition post_automated_query_pricing : BlogPost := {|
  id := "automated-query-pricing";
  title := "Automated Query Pricing in The Graph";
  excerpt := "To help indexers with pricing in the relative resource cost of serving different query shapes, we are developing AutoAgora, an automation tool.";
  category := "AI & Optimization";
  image := "@/assets/blog/automated-query-pricing.png";
  url := "https://blog-semiotic.ghost.io/automated-query-pricing-in-the-graph/";
  featured := None
|}.

Definition post_indexer_allocation_2 : BlogPost := {|
  id := "indexer-allocation-2";
  title := "Indexer Allocation Optimization: Part II";
  excerpt := "How can we enable Indexers to input their preferences into the Allocation Optimizer and how do those preferences impact the optimization problem?";
  category := "Optimization";
  image := "@/assets/blog/indexer-part-2.png";
  url := "https://blog-semiotic.ghost.io/indexer-allocation-optimization-part-ii/";
  featured := None
|}.

Definition post_amm_overview : BlogPost := {|
  id := "amm-overview";
  title := "An Overview of Automatic Market Maker Mechanisms";
  excerpt := "This article explores the principles and mechanisms behind the many popular AMM designs currently used in production, with graphical representations.";
  category := "DeFi";
  image := "@/assets/blog/automatic-market-maker.png";
  url := "https://blog-semiotic.ghost.io/an-overview-of-automatic-market-maker-mechanisms/";
  featured := None
|}.

Definition post_psi_fhe : BlogPost := {|
  id := "psi-fhe";
  title := "PSI with FHE";
  excerpt := "Private Set Intersection is a cryptographic technique that allows two parties to identify shared information without leaking any other data.";
  category := "Cryptography & Security";
  image := "@/assets/blog/psi-with-fhe.png";
  url := "https://blog-semiotic.ghost.io/psi-with-fhe/";
  featured := None
|}.

Definition post_crypto_meta_analysis : BlogPost := {|
  id := "crypto-meta-analysis";
  title := "2024 Crypto Meta-Analysis";
  excerpt := "We used ChatGPT to summarize crypto market outlooks from Messari, VanEck, Pantera Capital, Coinbase Institutional, a16z crypto, and Odos.";
  category := "Research";
  image := "@/assets/blog/crypto-meta-analysis.png";
  url := "https://blog-semiotic.ghost.io/2024-crypto-meta-analysis/";
  featured := None
|}.

Definition post_indexer_allocation_1 : BlogPost := {|
  id := "indexer-allocation-1";
  title := "Indexer Allocation Optimization: Part I";
  excerpt := "How can indexers optimise their allocations so as to maximise the reward they receive? We formalise the problem and use convex optimization.";
  category := "Optimization";
  image := "@/assets/blog/indexer-part-1.png";
  url := "https://blog-semiotic.ghost.io/indexer-allocation-optimization-part-i/";
  featured := None
|}.

Definition post_sum_check : BlogPost := {|
  id := "sum-check";
  title := "Introduction to the Sum-Check Protocol";
  excerpt := "Verifiable computing lets us outsource computing away from the EVM. Various families of SNARKs use the sum-check protocol, a simple VC algorithm.";
  category := "Cryptography & Security";
  image := "@/assets/blog/sum-check.png";
  url := "https://blog-semiotic.ghost.io/introduction-to-the-sum-check-protocol/";
  featured := None
|}.

Definition blogPosts : list BlogPost :=
  [ post_cctp_rs;
    post_verifiable_extraction;
    post_homomorphic_signatures;
    post_automated_query_pricing;
    post_indexer_allocation_2;
    post_amm_overview;
    post_psi_fhe;
    post_crypto_meta_analysis;
    post_indexer_allocation_1;
    post_sum_check ].

(** ** The content table, [@/data/blogContent] *)

Definition content_cctp_rs : string :=
  "_How we built an open-source library that's moved millions in USDC across blockchains by Joseph Livesey, Semiotic Engineering_

---

At Semiotic, we often find ourselves building infrastructure that doesn't exist yet. When we needed reliable cross-chain USDC transfers for our treasury management system, we discovered there was no production-ready Rust SDK for Circle's Cross-Chain Transfer Protocol (CCTP). So we built one.

Today, we're excited to share [cctp-rs](https://github.com/semiotic-ai/cctp-rs), a type-safe, production-hardened Rust implementation of CCTP that powers millions of dollars in USDC transfers for our internal systems. With our v1.0.0 release, we're making this battle-tested infrastructure available to the broader Rust and crypto ecosystem.

## The Problem: Bridging at Scale

Our internal Likwid service manages router assets across 15+ blockchain networks. It autonomously monitors routers, liquidates accumulated tokens to USDC via DEX aggregators, and consolidates funds to a treasury on Base. This happens 24/7 without human intervention.

The bridging piece was the missing link. We needed to:

- Transfer USDC from Ethereum, Arbitrum, Optimism, Avalanche, and Polygon to Base
- Handle the full CCTP lifecycle: burn → attestation → mint
- Survive network failures, rate limits, and third-party relayer races
- Maintain complete observability for debugging production issues
- Support both CCTP v1 (legacy) and v2 (with sub-30-second settlements)

Existing TypeScript SDKs weren't suitable for our Rust-native infrastructure. So we built cctp-rs from the ground up.

## Design Philosophy: Type Safety as a Feature

Rust's type system isn't just about memory safety—it's a tool for encoding domain knowledge into your code. We leveraged this extensively:

### Compile-Time Chain Validation

```rust
// Chain support is checked at compile time
let domain_id = NamedChain::Arbitrum.cctp_domain_id()?;
let fee_bps = NamedChain::Arbitrum.fast_transfer_fee_bps()?;

// Unsupported chains fail gracefully with typed errors
let err = NamedChain::Fantom.cctp_domain_id();
assert!(matches!(err, Err(CctpError::UnsupportedChain(_))));
```

### Version-Specific APIs That Can't Be Misused

CCTP v1 and v2 have fundamentally different attestation lookups. v1 queries by message hash; v2 queries by transaction hash. This is easy to confuse, and the wrong choice means failed mints.

We solved this with separate types:

```rust
// V1: Query by message hash
let attestation = Cctp::get_attestation(message_hash, ...).await?;

// V2: Query by transaction hash, returns canonical message
let (message, attestation) = CctpV2Bridge::get_attestation(tx_hash, ...).await?;
```

You literally cannot call the wrong method—the compiler won't let you.

### The V2 Nonce Foot-Gun

Here's a subtle bug we caught: CCTP v2's `MessageSent` event emits a " +:+ dquote +:+
  "template" +:+ dquote +:+
  " message with zeros in the nonce field. Circle's attestation service fills in the actual nonce before signing. If you use the message from the logs for minting, it will fail.

Our v2 API handles this automatically:

```rust
// get_attestation() always returns the canonical message from Circle's API
let (canonical_message, attestation) = bridge.get_attestation(tx_hash, ...).await?;
// Use canonical_message for minting—it has the correct nonce
```

This design choice eliminated an entire class of production bugs.

## Relayer-Aware Design for the Real World

CCTP v2 is permissionless. Once Circle attests a message, _anyone_ can relay it. On mainnet, third-party relayers actively monitor burns and may complete your transfer before your application does.

This isn't a bug; it's a feature of decentralized systems. But it means your code needs to handle races gracefully:

```rust
use cctp_rs::{CctpV2Bridge, MintResult};

match bridge.mint_if_needed(message, attestation, from).await? {
    MintResult::Minted(tx_hash) => {
        log::info!(" +:+ dquote +:+
  "Minted via our relayer: {tx_hash}" +:+ dquote +:+
  ");
    }
    MintResult::AlreadyRelayed => {
        log::info!(" +:+ dquote +:+
  "Transfer completed by third-party relayer" +:+ dquote +:+
  ");
    }
}
```

The `mint_if_needed()` method checks the on-chain nonce status before attempting a mint, preventing wasted gas and failed transactions.

## Production Hardening: The Details That Matter

### HTTP Timeouts and Retry Logic

```rust
let client = Client::builder()
    .timeout(Duration::from_secs(30))
    .build()?;
```

We poll Circle's Iris API with configurable retry logic:

- Rate limit handling (429 → sleep 5 minutes)
- 404 responses treated as " +:+ dquote +:+
  "pending, retry" +:+ dquote +:+
  "
- Configurable max attempts and poll intervals

### Comprehensive Error Types

```rust
#[derive(Error, Debug)]
pub enum CctpError {
    UnsupportedChain(NamedChain),
    AlreadyRelayed { original: String },
    AttestationTimeout,
    AttestationFailed { reason: String },
}
```

No string-based errors. No panics. Every failure mode has a typed representation.

## The Numbers

- **26+ supported chains** across mainnet and testnet
- **v2.0.0 stable** with semantic versioning
- **Millions of USDC** bridged in production via Likwid

## How Likwid Uses cctp-rs

Our treasury consolidation flow:

1. **Extraction**: Discover tokens accumulated in routers across 15+ chains
2. **Liquidation**: Swap tokens to USDC via Odos aggregator when thresholds are met
3. **Bridging**: Move USDC to Base via CCTP v2
4. **State tracking**: PostgreSQL tracks the full lifecycle (burn → attestation → mint)

## Get Started

```toml
[dependencies]
cctp-rs = " +:+ dquote +:+
  "2.0.0" +:+ dquote +:+
  "
```

```rust
use cctp_rs::{CctpV2Bridge, CctpError};
use alloy_chains::NamedChain;

let bridge = CctpV2Bridge::builder()
    .source_chain(NamedChain::Mainnet)
    .destination_chain(NamedChain::Base)
    .source_provider(eth_provider)
    .destination_provider(base_provider)
    .recipient(recipient)
    .build();

let burn_tx = burn_usdc(&bridge, amount).await?;
let (message, attestation) = bridge.get_attestation(burn_tx, None, None).await?;
bridge.mint_if_needed(message, attestation, from).await?;
```

Check out the [examples](https://github.com/semiotic-ai/cctp-rs/tree/main/examples) for complete working code.

## What's Next

We're continuing to evolve cctp-rs as Circle expands CCTP support:

- New chain additions as Circle announces them
- Performance optimizations for high-frequency use cases
- Enhanced hook support for programmable transfers

The crate is Apache 2.0 licensed and we welcome contributions.

---

_cctp-rs is open source at [github.com/semiotic-ai/cctp-rs](https://github.com/semiotic-ai/cctp-rs). Documentation is available at [docs.rs/cctp-rs](https://docs.rs/cctp-rs)._

_Semiotic AI builds financial infrastructure. Learn more at [semiotic.ai](https://www.semiotic.ai)._".

Definition content_verifiable_extraction : string :=
  "The Graph is a decentralized protocol organizing blockchain data for easy access. Indexers maintain this organized data and provide a way for developers, dapps, and data analysts to query the data they need.

In order to provide accurate results and avoid slashing, an Indexer should ensure that the data they are using to respond to queries is correct and reflects the recorded history of the protocol from which it was derived. Here we discuss _Verifiable Extraction_, the process of verifying that data pulled from a blockchain accurately reflects the chain's ledger.

## Sources of Information

An Indexer can retrieve, or _extract_, blocks from a chain for indexing and querying services by different means. These include direct access to an archive node, file sharing among Indexers, or pulling from a central repository of information.

Below we will discuss what it means for blockchain data to be verifiable, how verification can be carried out, and how Semiotic's [veemon](https://github.com/semiotic-ai/veemon) project provides source code in Rust to verify Ethereum blocks.

## Verifiable Data: Integrity and Authentication

When Alice shares a file with Bob, how can Bob trust that the file has not been altered in transit, and that he has the same information that Alice has? Bob needs to verify the _integrity_ of the information. Alice makes a claim involving the file's contents and sends this claim to Bob along with the file. Bob can reconstruct the claim from the information he receives and verify that it matches the one Alice sent.

A useful claim is easy to reconstruct and verify, and should only correspond to the message from which it was constructed. In the context of SNARKs, such a claim is called a _commitment_.

### Example: Hash Functions

A _cryptographic hash function_ is practical for verifying information integrity. This is a function with the following properties:

- The output of the hash function (the _hash_) is a fixed size, regardless of the size of the input.
- It is easy to compute the output, but difficult to find an input for a given output (one-way function).
- Given an input-output pair, it is difficult to construct another input which gives the same output.

A simple example of an integrity verification scheme which typically uses a hash function is a checksum.

With this Alice and Bob example, we have illustrated two necessary components of verifiable data:

1. **Integrity**: The data is correct.
2. **Authentication**: The data came from a trusted source.

## Integrity: Verifying the Contents of the Block

An Indexer using information from a blockchain could extract that information by various means, including from a shared file, a data repository, or by direct RPC request.

StreamingFast's Firehose enables the creation of binary flat files which can be easily shared and archived among Indexers. These flat files generalize execution blocks from multiple chains via Google Protocol Buffer (Protobuf) definitions.

The benefits of using verifiable data—such as Firehose flat files—as a source for Indexers include:

1. Indexers can share files without needing to trust each other
2. An Indexer needs to ensure that the data it provides to an end user has integrity
3. Historical blockchain data must be maintained for developers who require it

The transactions root is calculated by constructing a Merkle tree, which uses a hash function to incorporate information from a group of transactions (the leaves) into a single hash output (the root). Any change in a recorded transaction will result in a change to the commitment.

**1. The contents of the block should be associated with a commitment that can be verified.**

## Authentication: Verifying the Source of the Block

By verifying the contents of the block, an Indexer can ensure that a block is self-consistent. But what is to prevent Alice from changing or omitting a transaction in the original block, recalculating the transactions root and block hash based on this erroneous information?

To address this issue, we need to verify that the block itself came from a trusted source. Our ultimate source of trust here is the blockchain ledger.

**2. The block can be shown to match the blockchain's ledger.**

### Proof of Inclusion in the Chain's History

Similar to how there is a transactions root commitment to a group of transactions, we can construct a commitment to a group of block hashes. A group here is equal to 8,192 block hashes and is called an _era_. By calculating the root of a Merkle tree with these block hashes at the leaves, we create a commitment to this era.

A verifier compares this root to a trusted record of roots for all eras in the Ethereum history. The Portal Network maintains a record of these era-based roots called a Header Accumulator.

## veemon: Verifiable Extraction in Rust

Semiotic Labs maintains source code in Rust to perform verifiable extraction of Ethereum blocks. The [veemon](https://github.com/semiotic-ai/veemon/) repository provides the capability to parse StreamingFast .dbin files containing Ethereum blocks, and to verify the content and history of pre-Merge and post-Merge blocks.

As information from decentralized protocols is extracted by Graph Indexers and served to end users, it is important to ensure that the information is trustworthy. Indexers serving up blockchain records must be able to verify that the data is correct according to the consensus of the blockchain.".

Definition content_homomorphic_signatures : string :=
  "_This post was co-authored by Carollan Helinski, Severiano Sisneros, and Pedro Henrique Bufulin de Almeida at Semiotic Labs._

## Introduction

You're a coffee shop owner looking to minimize your costs of doing business. You notice that credit card transaction fees are inflating the price you charge to your customers. So you have an idea: rather than paying with credit card for each transaction, you let your customers pay with an IOU. At the end of the month you tally the customer's IOUs and ask the customer to pay the total amount using a single credit card transaction.

But, what happens if you have a customer who runs up a large tally and then never comes back? It would be great if you could prove that all the IOUs came from the untrustworthy customer and also prove the value of the sum of all the IOUs.

Cryptographers solved the first half of the problem in the early days of public-key cryptography by inventing digital signatures. In this post we're going to talk about how cryptographers solved the full problem using something called a **homomorphic signature scheme**.

Essentially all " +:+ dquote +:+
  "homomorphic" +:+ dquote +:+
  " means is that if you have two values that are the output of some function and add them together, then the result is the same as first adding the two inputs together and then calculating the function on the sum.

This solution is particularly interesting in blockchain applications, where transaction fees are particularly high. You can submit a single transaction which verifies the homomorphic signature and transfers the amount owed. This is way cheaper than having to submit and verify all the individual signatures and enables interesting protocols like micropayment channels.

This post discusses design and optimization of verifiable micropayments over a state channel, a feature of Semiotic Labs' [GraphTally](https://github.com/semiotic-ai/timeline-aggregation-protocol) library for The Graph.

## Micropayments Using State Channels

An Ethereum-based state channel lets users conduct numerous transactions off-chain without the cost of executing each transaction on the EVM. In the case where transactions are payment transfers (a payment channel), the cost associated with fees can be greatly reduced, especially when the value of each payment is low (a so-called micropayment).

Semiotic Labs' GraphTally provides a library for verifying ECDSA signatures on transactions in a payment channel. The receipt for each micropayment is signed, then verified by the TAP Aggregator. The Aggregator adds together the values of all payments and creates a new signed receipt reflecting the combined value.

Instead of validating each signature individually, we look to homomorphic signature schemes (HSS), where the aggregated signature is a valid signature on the sum of messages. Semiotic Labs has developed a Rust implementation, [h2s2](https://github.com/semiotic-ai/h2s2), of the protocol.

## Homomorphic Signatures for Cheap and Trustless Micropayments

The network coding scheme NCS1 of Boneh et al. is an HSS consisting of four algorithms **Setup**, **Sign**, **Combine**, and **Verify**.

### Cost of Verification

If the values P, Q and R are initialized as part of the smart contract, then the verification of the combination requires:

- A scalar multiplication in G1, which costs 40,000 gas
- A pairing equality check, which costs 260,000 gas

To avoid doing the hash computation on the EVM, the verification smart contract can be initialized with a precomputed value based on the expected number of receipts N.

## Benchmarks

The following benchmarks were conducted on an M2 MacBook Air using our Rust implementation [h2s2](https://github.com/semiotic-ai/h2s2):

- **82μs** to sign a single message
- **1.2ms** to verify a single message
- **58μs** to combine 32 signatures
- **1.1ms** to verify a batch of 32 signatures

The most important thing we notice is that verifying an aggregate signature takes about the same time as verifying a single signature. For blockchain applications, this means we can batch verify any number of signatures and the on-chain costs will be independent of the number of signatures in the batch.

## Conclusion

By leveraging homomorphic signature schemes, we can significantly reduce the computational costs associated with verifying aggregated micropayments, while maintaining the security and integrity of off-chain transactions.".

Definition content_automated_query_pricing : string :=
  "## TL;DR

Indexers in The Graph have control over the pricing of the GraphQL queries they serve based on their shape. For this task, The Graph created a domain-specific language called Agora that maps query shapes to prices in GRT. However, manually populating and updating Agora models for each subgraph is a tedious task, and as a consequence, most indexers default to a static, flat pricing model.

To help indexers with pricing in the relative resource cost of serving different query shapes, as well as following the query market price, we are developing **AutoAgora**, an automation tool that automatically creates and updates Agora models.

## Query Relative Cost Discovery

This work is based on a few trends that we have observed through analyzing the query traffic.

### Observations on Received Queries

One of the major problems of GraphQL is its ability to create very computationally expensive queries. In the worst cases, it is even possible to create exponentially hard queries while the query body itself grows only linearly. We can indeed observe this on queries against the Uniswap V2 subgraph, where query execution times span 4 orders of magnitude.

Simultaneously, we observed that a vast majority of the queries are based on a small number of query shapes. This is to be expected as most queries are generated programmatically from web frontends.

Based on the observations above, a reasonable solution for relative query pricing is to estimate the relative cost of the most frequent queries for each subgraph.

### AutoAgora Logging and Relative Costing Infrastructure

All monetized queries coming from the Gateway pass through the `indexer-service`. We modified it to output detailed query logs (subgraph hash, query, variables, GRT fees paid, execution time). These logs are then processed to normalize the queries, separate all query values from the query shapes.

Relative pricing is generated periodically from the logs database. For each subgraph, query shapes that have seen more than a threshold number of queries are selected to be included in the Agora model. For each shape, the average query execution time is computed and used as the query shape cost factor in the pricing model.

## Query Market Price Discovery

### The Query Market

In The Graph, each subgraph on each gateway defines a query market, on which end-consumers compete to buy queries and indexers compete to serve queries based on their Agora-defined prices and quality of service.

The objective of the AutoAgora price discovery is to find the `$GLOBAL_COST_MULTIPLIER` that optimizes the revenue rate, as well as continuously adjust it to track markets fluctuations.

### AutoAgora Absolute Price Discovery

To find and continuously track the optimal price point requires continuously probing the market " +:+ dquote +:+
  "black box" +:+ dquote +:+
  " at various price points. The balance between exploration and exploitation is a reinforcement learning problem studied through the multi-armed bandit problem.

We are mapping the price discovery problem as a continuum-armed bandit problem. The policy is modeled as a Gaussian probability distribution over cost multiplier values.

We tested the AutoAgora price discovery on our own indexer (`semiotic-indexer.eth`) on mainnet with great success.

## Limitations and Conclusions

Our goal with AutoAgora is to help build sustainable, efficient query markets on The Graph, while also lowering the human operation costs.

Current shortcomings include:
- The relative cost models based only on average query shape execution time are too simplistic
- The initial convergence speed of the market price bandit model is quite slow
- The price bandit training is unstable on subgraphs with low query volumes

The AutoAgora components are open source under the Apache-2 license.".

Definition content_indexer_allocation_2 : string :=
  "_This article was co-authored by Anirudh Patel, Howard Heaton from Edge & Node, and with Hope Yen from GraphOps._

## TL;DR

Analytically optimizing to maximize indexing rewards may seem like a straightforward solution, but it oversimplifies the complexities involved in an Indexer's decision-making process. In this post, we'll discuss how we enable Indexers to input their preferences into the [Allocation Optimizer](https://github.com/graphprotocol/allocation-optimizer) and how those preferences can impact the Allocation Optimization problem. We'll also explore how we incorporate a gas fee to make the optimization problem more realistic, which results in a non-convex problem.

## Optimizing Over Gas

Gas costs have long been a challenging issue for those seeking to solve web3 optimization problems. We aim to find the set of optimal sparse vectors and then select the specific sparse vector that yields the highest profit. We define profit as the total indexing reward minus the total gas cost.

### The Math At A Glance

We use gradient descent, projected gradient descent, the simplex projection, GSSP (Greedy Selector and Simplex Projector), and Halpern iteration to solve this optimization problem.

The key insight is that adding gas fees makes the originally convex objective function non-convex. This is because we've added a term depending on a binary variable that has value 1 if an allocation is nonzero and 0 otherwise.

For non-convex functions, gradient descent can get stuck at local minima rather than finding the global minimum.

### Solution Approach

We solve the problem with a sparsity constraint for each value k from 1 to the number of subgraphs, giving us the optimal allocation strategy for k allocations. Then, we choose the best of these by picking the one that maximizes profit after accounting for gas costs.

When you run the Allocation Optimizer with `opt_mode = " +:+ dquote +:+
  "fast" +:+ dquote +:+
  "`, this is exactly what the code does!

### Results

| | 100 GRT | 1000 GRT | 10000 GRT |
|---|---|---|---|
| Current Profit | 191,525.88 | 183,425.88 | 102,425.88 |
| Optimized Profit | 540,841.27 | 469,017.12 | 333,127.37 |
| % Increase | 282% | 255% | 325% |

As expected, higher gas costs result in fewer allocations.

## Indexer Preferences

### Filtering Subgraphs

Indexers can specify:
- **Blacklist**: Subgraphs to exclude from optimization
- **Whitelist**: Only allocate to these subgraphs
- **Frozenlist**: Keep existing allocations fixed
- **Pinnedlist**: Ensure minimum allocation on specific subgraphs
- **min_signal**: Filter out subgraphs with signal below a threshold

### Other Preferences

- **allocation_lifetime**: Determines the time frame for token issuance
- **max_allocations**: Limits the number of subgraphs to allocate to

## Conclusion

In Part II, we've demonstrated how the Allocation Optimizer accounts for Indexer preferences and how the fast mode solves the non-convex optimization problem using GSSP and Halpern iteration. However, we did not demonstrate optimality—the Allocation Optimizer also has an optimal flag that we'll cover in our next blog post.

Check out our Julia package [SemioticOpt](https://github.com/semiotic-ai/SemioticOpt.jl) for the optimization techniques described here.".

Definition content_amm_overview : string :=
  "## TL;DR

This article explores the principles and mechanisms behind the many popular Automatic Market Maker designs currently used in production. While the mathematical details of these designs are fascinating in their own right, this article seeks to focus on graphical representations and high-level concepts, allowing for a more approachable and exhaustive exploration of the space.

## Introduction

Historically, order books run by professional market makers have been the dominant method used to facilitate exchange. On-chain, maintaining an order book is prohibitively expensive, since storage and computation on distributed ledgers are in short supply and high demand. For this reason, **Automatic Market Makers (AMM)** have emerged as an efficient class of methods to facilitate the exchange of crypto assets.

An AMM leverages smart contracts to allow permissionless participation in market-making. These individuals passively provide liquidity to the contract, which can then use a predetermined function to automatically facilitate exchanges between buyers and sellers.

## Basic Automatic Market Makers

The first and most well-known AMM is the **Constant Product Market Maker (CPMM)**, first released by Bancor and further popularized by Uniswap. The CPMM spreads liquidity out equally between all prices, making it an extremely general solution but also very capital inefficient.

The **Constant Mean Market Maker (CMMM)**, introduced by Balancer Protocol, generalizes the CPMM by allowing the liquidity provider to specify desired portfolio weights, such as a 20%-80% split.

The extreme case is a **Constant Sum Market Maker (CSMM)**, which facilitates exchange at a fixed rate regardless of the current portfolio. This allows for perfect capital efficiency at the selected exchange rate, but quickly leads to losing all of the more valuable assets the moment the price deviates.

## Hybrid Automatic Market Makers

**Curve's StableSwap** interpolates between CPMM and CSMM behavior, maintaining close to a 1:1 exchange rate for pegged assets while never running out of either asset.

**Solidly** builds on Uniswap V2 by adding a quartic sum invariant for stable assets, producing a similar effect to StableSwap.

**Dodo's PMM** (Proactive Market Maker) flattens the price curve around an oracle price with a slippage parameter k that interpolates between constant product (k=1) and constant sum (k=0).

**Clipper** interpolates between constant sum and constant product more explicitly, parameterized by a slippage parameter k.

**Curve's CryptoSwap** expands on StableSwap for volatile assets with additional parameters, dynamic fees, and an internal oracle system.

## Virtual Reserve Automatic Market Makers

**KyberSwap** introduced virtual reserves, multiplying real balances by an amplification factor. This provides much higher capital efficiency but means the market maker can potentially run out of one asset.

**Uniswap V3** allows each liquidity provider to pick their own price range, incentivizing precise price range selection with higher yields.

## Request For Quote Systems

RFQ mechanisms allow for private off-chain pricing with on-chain settlement, bridging DeFi and traditional finance.

## Conclusions

While this list covers many major DEXs, there remain several significant AMMs not covered. With the enormous variation in AMM models, **DEX aggregators** have become essential. [Odos.xyz](https://odos.xyz/) is a DEX aggregator that searches more complex solutions than existing platforms, allowing for atomic multi-input trades and better rates.".

Definition content_psi_fhe : string :=
  "_This work was done by Gokay Saldamli and Lisandro (Lichu) Acuña at Semiotic Labs. Special thanks to Jonathan Passerat-Palmbach and the broader Flashbots team for their collaboration._

## Private Set Intersection with Fully Homomorphic Encryption

**Private Set Intersection (PSI)** is a cryptographic technique that enables two parties to identify common elements in their sets without leaking any information about the rest of the elements. This can be used in secure contact tracing during epidemics or in privacy-preserving human genome testing.

Over the last year, Semiotic Labs has been studying PSI applications to blockchain infrastructure problems, particularly in the context of Maximal Extractable Value (MEV). Through discussions with the Flashbots team, we concluded that an efficient PSI protocol could add a lot of value to the field.

### The Math

The protocol uses **Fully Homomorphic Encryption (FHE)** to eliminate reliance on an external server. FHE enables computing directly on encrypted data, preserving data privacy throughout processing.

Our solution is based on Chang et al.'s " +:+ dquote +:+
  "Fast Private Set Intersection from Homomorphic Encryption" +:+ dquote +:+
  ":

0. **Context**: Alice has a set A and Bob has a set B
1. **Setup**: Alice generates a public-secret key pair, sends public key to Bob
2. **Set encryption**: Alice encrypts each element and sends ciphertexts to Bob
3. **Computing intersection**: For each ciphertext, Bob homomorphically computes a product that will be zero only if the element is in the intersection
4. **Reply extraction**: Alice decrypts the results—zeros indicate shared elements

We added an optimization that keeps the circuit depth fixed regardless of set sizes by splitting Bob's set into subsets, allowing PSI on sets of any size.

### The Code

We implemented the protocol using node-seal, a wrapper of Microsoft SEAL. The code is available at our [public GitHub repository](https://github.com/LichuAcu/psi-demo).

### Benchmarks

| Alice's set | Bob's set | Running time |
|---|---|---|
| 100 | 50 | 1,919ms |
| 100 | 100 | 3,811ms |
| 100 | 200 | 7,646ms |
| 100 | 400 | 15,286ms |
| 100 | 800 | 30,496ms |

Runtime grows linearly with Bob's set size, and the separate intersections can be run in parallel.

### Use Cases

- Private access list comparison (EIP-2930)
- Private auctions among MEV extractors
- Private block construction
- Note discovery in Aztec Protocol

### Limitations

The main limitation is that this protocol is designed for only two entities. Extending to n parties would require O(n²) executions.".

Definition content_crypto_meta_analysis : string :=
  "## Introduction

Many groups have released 2024 crypto market outlooks this year. We used ChatGPT to summarize those from Messari, VanEck, Pantera Capital, Coinbase Institutional, and a16z crypto. We also include outlooks from Odos, a leading DeFi aggregator spun out of Semiotic.

## Common Themes

The most common themes are Bitcoin, DeFi, Gaming, DeSoc, AI, DePIN, improving user experience, and tokenizing real-world assets (RWAs).

### Bitcoin

Across the reports, there is a uniform view that Bitcoin's dominance is expected to persist, driven by growing institutional interest and validation as a unique digital store of value. The upcoming halving event is highlighted as a potential catalyst for appreciation. There is excitement around a Bitcoin ETF.

### DeFi

DeFi represents just under 0.01% of the $510 trillion value of global financial assets, indicating significant room for expansion. Key trends include:

- **RWA Diversification**: Real World Assets on public blockchains expected to be driven by DeFi natives
- **Bitcoin Layer 2**: Led by Stacks, providing better access to Bitcoin liquidity
- **L2s Capturing DeFi**: Significant adoption of L2 ecosystems with cheaper gas fees
- **Rise of On-Chain Order Books**: An exciting " +:+ dquote +:+
  "L2 native" +:+ dquote +:+
  " evolution of DeFi

### Gaming

Approximately 3.44 billion gamers globally contribute to an expected $184 billion in revenue. Gen Z and Gen Alpha are particularly engaged, spending around 15 hours a week gaming. Blockchain gaming is predicted to see a title surpassing 1 million daily active users.

### AI

The convergence of AI and crypto is seen as expanding the design horizons of crypto, with three key synergies:
- AI agents utilizing crypto infrastructure
- zkML innovations for smart contracts querying AI models
- Tokenization for rewarding contributions to AI models

### DePIN

DePIN encompasses storage, computing, wireless connectivity, energy networks, and geospatial data collection. The cloud storage market is valued at $80 billion, yet decentralized alternatives cater to less than 0.1% despite offering costs 70% lower.

Notable projects include Filecoin, Storj, Arweave, Hivemapper, and Helium.

### User Experience

Account abstraction (ERC-4337) is simplifying crypto interactions. The upcoming Dencun upgrade is expected to reduce rollup transaction fees by 2-10x. Intents are emerging as a new paradigm for defining blockchain actions.

### NFTs

NFTs are integrating into mainstream brand strategies. Bitcoin-based NFTs through Ordinals are growing. Starbucks, Nike, and Reddit have all launched digital collectible programs.

### DeSoc

Decentralized social platforms like Farcaster and Lens are making strides. Key factors include portable social graphs, anti-censorship, control over algorithms, and creator monetization.

### Tokenizing Real-World Assets

MakerDAO's reserves have shifted towards tokenized treasuries, growing from $40M to nearly $3B. Centrifuge leads the RWA space with $250M in active loans.

## Selected Perspectives

### Messari
Strong long-term case for Bitcoin as a hedge against fiscal irresponsibility. Products to watch: USDT on Tron, BASE from Coinbase, Celestia, Firedancer, Farcaster, Lido, CCIP.

### VanEck
Anticipates U.S. recession in H1 2024. KYC-enabled DeFi apps expected to gain traction. Solana predicted to outperform in market cap and active users.

### Pantera Capital
Emphasizes the 1-Year HODL Wave metric. Suggests significant gains may still be ahead based on historical patterns.

### Coinbase Institutional
Layer-2 solutions growing rapidly. 59% of institutional investors expect allocations to increase. Complex regulatory landscape for stablecoins.

### a16z crypto
Decentralization matters for credibly neutral, open infrastructure. Open-source modular tech stacks unlock permissionless innovation. SNARKs are becoming mainstream for verification.

---

_Disclaimer: This document is for informational purposes only and does not constitute financial, legal, or investment advice._".

Definition content_indexer_allocation_1 : string :=
  "_This article was co-authored by Anirudh Patel, Howard Heaton from Edge & Node, and with Hope Yen from GraphOps._

### TL;DR

Indexers within The Graph Protocol are rewarded via an indexing reward. How can indexers optimise their allocations so as to maximise the reward they receive? In this blog post we formalise the problem in terms of a reward function and use convex optimization to find a solution.

### Overview

The Graph's goal is to decentralize the API and query layer of web3, enabling users to query blockchain data without a centralized service provider. " +:+ dquote +:+
  "Indexers" +:+ dquote +:+
  " serve queries to consumers. In this blog post, we focus on the problem of how an indexer should choose which data to index, and thereby, which data to serve.

### The Indexer Allocation Problem

Subgraphs are collections of data extracted from blockchain transactions. Indexers must be selective with which subgraphs they index. The more a subgraph is queried, the more Indexers want to be indexing it.

We rely on **curation**: the outputs of the curation process are subgraph signals, which should be roughly proportional to the volume of queries. The higher the signal on a subgraph, the higher we expect the query volume.

## The Indexing Reward Function

An Indexer i has some stake σᵢ. Each subgraph j has some signal ψⱼ on it. An Indexer's allocation to subgraph j is defined as Ωᵢⱼ. The indexing reward considers both the proportion of signal and the proportion of total allocation on each subgraph.

## Intuition

- The amount we should allocate to a subgraph is roughly a linear function of the signal on that subgraph
- We want to place just enough stake to capture the maximum reward on each subgraph
- When the marginal reward for increasing stake on one subgraph is less than another, we should switch

## Optimizing The Indexing Reward

We want to maximize the indexing reward subject to constraints that allocations must sum to our total stake and can't be negative. Since the indexing reward is a concave function of allocations, we can use convex optimization!

We use the Karush-Kuhn-Tucker conditions to find an analytic solution.

### Results

Running our optimizer for an existing Indexer, we see an improvement in indexing rewards from **208,608.87 GRT to 240,739.72 GRT**. That's an improvement of **15%!**

The optimal allocation allocates to way more subgraphs: the Indexer currently allocates to 70, while the optimal tool allocates to 144.

### Conclusion

The above problem formulation focuses on a simplified version. We haven't yet considered gas costs or resource constraints. These will turn our convex problem into a non-convex problem. The [next post](https://blog-semiotic.ghost.io/indexer-allocation-optimization-part-ii/) discusses how we can optimize this non-convex problem.".

Definition content_sum_check : string :=
  "### TL;DR

It is expensive to run transactions on the Ethereum EVM. Verifiable computing (VC) lets us outsource computing away from the EVM. Today, a popular and exciting form of VC algorithm is the SNARK. Various families of SNARKs use the **sum-check protocol**, which is a simple algorithm to introduce VC. This is a tutorial on the sum-check protocol.

You can skip straight to the finished code [here](https://github.com/0xsamgreen/sumcheck).

### Background

Executing code on Ethereum is expensive. Verifiable computing algorithms promise a way to reduce costs, by outsourcing computing to untrusted parties and only verifying the result on-chain. The sum-check protocol is a foundational building block of more sophisticated SNARK algorithms.

The sum-check protocol is used to outsource the computation of a sum of a function g evaluated at all Boolean inputs. It allows a Prover P to convince a Verifier V that P computed the sum correctly.

### The Sum-Check Protocol

The protocol steps are:

1. **Prover P calculates the total sum** of g evaluated at all Boolean inputs
2. **P computes a partial sum**, leaving the first variable x₁ free
3. **Verifier V checks** that the partial sum and total sum agree when evaluated at 0 and 1
4. **V picks a random number r₁** and sends it to P
5. **P replaces the free variable** with r₁ and computes a partial sum leaving x₂ free
6. **Repeat steps 3-5** for all remaining variables
7. **V evaluates g at one input** using an oracle: g(r₁, r₂, ..., rᵥ)
8. **If V's check passes**, V accepts P's proof

### Example

For the function ϕ(x₁,x₂,x₃,x₄) = (NOT x₁ AND x₂) AND (x₃ OR x₄), the arithmetized version is:

g(x₁,x₂,x₃,x₄) = (1-x₁)·x₂·((x₃+x₄)-(x₃·x₄))

The Boolean-to-arithmetic conversion rules:

| Boolean gate | Arithmetized version |
|---|---|
| A AND B | A*B |
| A OR B | (A+B)-(A*B) |
| NOT A | 1-A |

Evaluating g at all 16 Boolean inputs gives g₀ = 3 (the #SAT answer).

The security of sum-check derives from the Schwartz–Zippel lemma—essentially random sampling for quality control. With sum-check, the cost for V drops from 2ᵛ evaluations to just v steps plus a single evaluation of g.

### Conclusions

Python code implementing sum-check can be found in [this repo](https://github.com/0xsamgreen/sumcheck). The Fiat–Shamir transform can make sum-check non-interactive, which is what SNARKs also use.".

Definition blogContent : gmap string string :=
  JS.object_literal [
    ("cctp-rs", content_cctp_rs);
    ("verifiable-extraction", content_verifiable_extraction);
    ("homomorphic-signatures", content_homomorphic_signatures);
    ("automated-query-pricing", content_automated_query_pricing);
    ("indexer-allocation-2", content_indexer_allocation_2);
    ("amm-overview", content_amm_overview);
    ("psi-fhe", content_psi_fhe);
    ("crypto-meta-analysis", content_crypto_meta_analysis);
    ("indexer-allocation-1", content_indexer_allocation_1);
    ("sum-check", content_sum_check)
  ].

(** ** Module-level state and the reads the components perform *)

(** The two exported bindings the components import.  Every operation takes
    the store and hands it back, so that a write, if there were one, would
    show in the returned store. *)
Record Store : Type := {
  catalog : list BlogPost;
  table : gmap string string
}.

Definition M (A : Type) : Type := Store -> A * Store.

Definition ret {A} (a : A) : M A := fun st => (a, st).

Definition bind {A B} (c : M A) (k : A -> M B) : M B :=
  fun st => let (a, st') := c st in k a st'.

Notation "x <- c ;; k" := (bind c (fun x => k))
  (at level 100, c at next level, right associativity).

(** [blogPosts.find(pred)]: the first record satisfying [pred]. *)
Definition blogPosts_find (pred : BlogPost -> bool) : M (option BlogPost) :=
  fun st => (List.find pred (catalog st), st).

(** [blogPosts.filter(pred)]: the records satisfying [pred], in order. *)
Definition blogPosts_filter (pred : BlogPost -> bool) : M (list BlogPost) :=
  fun st => (List.filter pred (catalog st), st).

(** [blogContent[key]]. *)
Definition blogContent_get (key : string) : M JS.value :=
  fun st => (JS.get (table st) key, st).

(** ** The post page, the [BlogPost] component *)

(** What the page renders: the "Post not found" fallback, or the article
    built from the record and the markdown handed to the renderer. *)
Inductive Rendering : Type :=
| PostNotFound
| Article (post : BlogPost) (content : JS.value).

Module Pages.

(** The component body, for the [slug] that [useParams] returned
    ([undefined] when the route has no such parameter). *)
Definition BlogPost (slug : option string) : M Rendering :=
  post <- blogPosts_find (fun p => JS.strict_eq (id p) slug) ;;
  content <- match slug with
             | Some s => if JS.truthy_slug slug
                         then blogContent_get s
                         else ret JS.Undefined
             | None => ret JS.Undefined
             end ;;
  match post with
  | None => ret PostNotFound
  | Some p => if JS.truthy content then ret (Article p content)
              else ret PostNotFound
  end.

End Pages.

(** The resolver as a function of the two tables and the identifier. *)
Definition Resolver (posts : list BlogPost) (contents : gmap string string)
    (slug : option string) : Rendering :=
  fst (Pages.BlogPost slug {| catalog := posts; table := contents |}).

(** ** The listing, [src/components/BlogGrid.tsx] *)

Record Listing : Type := {
  featured_card : option BlogPost;
  rest : list BlogPost
}.

Module Components.

Definition BlogGrid : M Listing :=
  first_featured <- blogPosts_find (fun p => JS.truthy_flag (featured p)) ;;
  others <- blogPosts_filter (fun p => negb (JS.truthy_flag (featured p))) ;;
  ret {| featured_card := first_featured; rest := others |}.

End Components.

(** The listing partition as a function of the catalog. *)
Definition ListingPartition (posts : list BlogPost) : Listing :=
  fst (Components.BlogGrid {| catalog := posts; table := ∅ |}).

(** A record is marked featured when its flag is present and true. *)
Definition is_featured (p : BlogPost) : bool := JS.truthy_flag (featured p).

(** ** Auxiliary definitions for the statements *)

(** The value bound to [content] in the page component. *)
Definition content_of (contents : gmap string string) (slug : option string) : JS.value :=
  match slug with
  | Some s => if JS.truthy_slug slug then JS.get contents s else JS.Undefined
  | None => JS.Undefined
  end.

(** A record used to probe the resolver on tables other than the shipped
    ones. *)
Definition probe_post (i : string) : BlogPost := {|
  id := i;
  title := "Probe";
  excerpt := "A record that is not part of the shipped catalog.";
  category := "Drafts";
  image := "@/assets/blog/probe.png";
  url := "https://blog-semiotic.ghost.io/probe/";
  featured := None
|}.

(** A catalog record whose body was never written, under an identifier that
    happens to name a member of [Object.prototype]. *)
Definition unwritten_post : BlogPost := probe_post "toString".

Definition shipped_and_unwritten : list BlogPost :=
  (blogPosts ++ [unwritten_post])%list.

(** A record with a given identifier and flag, for the scenarios. *)
Definition flagged (i : string) (flag : option bool) : BlogPost := {|
  id := i;
  title := "Scenario";
  excerpt := "A record of a scenario catalog.";
  category := "Scenario";
  image := "@/assets/blog/scenario.png";
  url := "https://blog-semiotic.ghost.io/scenario/";
  featured := flag
|}.

(** ** The listing card, the [BlogCard] component *)

Inductive Heading : Type := H2 | H3.

(** What a card shows and where it leads.  Class names, which only style the
    markup, are left out; everything a branch of the component reads from
    its props is kept. *)
Record Card : Type := {
  to : string;
  img_src : string;
  img_alt : string;
  img_loading : string;
  card_category : string;
  badge : bool;
  heading : Heading;
  card_title : string;
  card_excerpt : string;
  call_to_action : string
}.

(** [BlogCard({ post, featured })]: the wide card with the "Featured" label
    when the optional flag is truthy, the plain card otherwise. *)
Definition BlogCard (post : BlogPost) (featured : option bool) : Card :=
  if JS.truthy_flag featured
  then {| to := "/blog/" +:+ id post;
          img_src := image post;
          img_alt := title post;
          img_loading := "lazy";
          card_category := category post;
          badge := true;
          heading := H2;
          card_title := title post;
          card_excerpt := excerpt post;
          call_to_action := "Read article →" |}
  else {| to := "/blog/" +:+ id post;
          img_src := image post;
          img_alt := title post;
          img_loading := "lazy";
          card_category := category post;
          badge := false;
          heading := H3;
          card_title := title post;
          card_excerpt := excerpt post;
          call_to_action := "Read article →" |}.

(** ** What the grid renders *)

(** A child of the grid's [div]: a card, with its React key when it comes
    from the mapped list. *)
Record GridChild : Type := {
  child_key : option string;
  card : Card
}.

(** [featured && <BlogCard post={featured} featured />] followed by
    [rest.map((post) => <BlogCard key={post.id} post={post} />)]. *)
Definition BlogGrid_children (l : Listing) : list GridChild :=
  (match featured_card l with
   | Some p => [ {| child_key := None; card := BlogCard p (Some true) |} ]
   | None => []
   end
   ++ map (fun post => {| child_key := Some (id post); card := BlogCard post None |})
        (rest l))%list.

Definition BlogGrid_render : M (list GridChild) :=
  l <- Components.BlogGrid ;; ret (BlogGrid_children l).

(** The rendered children as a function of the catalog. *)
Definition ListingCards (posts : list BlogPost) : list GridChild :=
  fst (BlogGrid_render {| catalog := posts; table := ∅ |}).

Definition featured_count (posts : list BlogPost) : nat :=
  length (List.filter is_featured posts).

(** The records that get a card: the featured one, then the remainder. *)
Definition shown_posts (posts : list BlogPost) : list BlogPost :=
  (match featured_card (ListingPartition posts) with
   | Some p => [p]
   | None => []
   end ++ rest (ListingPartition posts))%list.

(** A matcher for the route [/blog/:slug] that hands the rest of the path
    back as it stands (no query, no fragment, no decoding).  The router is
    not part of the components; statements take it as a parameter and this
    matcher instantiates it. *)
Definition literal_blog_route (path : string) : option string :=
  if String.prefix "/blog/" path
  then Some (String.substring 6 (String.length path - 6) path)
  else None.

(** The path a card links to. *)
Definition link_of (p : BlogPost) : string := "/blog/" +:+ id p.

(** Two records that agree on everything but the external URL. *)
Definition same_but_url (p q : BlogPost) : Prop :=
  id p = id q ∧ title p = title q ∧ excerpt p = excerpt q
  ∧ category p = category q ∧ image p = image q ∧ featured p = featured q.

(** ** The anchor override handed to the markdown renderer *)

Module JSX.

(** A prop value: [undefined], a string, or anything else (React nodes, the
    syntax-tree node the renderer passes along), told apart by a label. *)
Inductive value : Type :=
| Undefined
| Text (s : string)
| Other (label : string).

(** An element as [jsx(tag, props)] receives it: the attributes and the
    children. *)
Record element : Type := {
  tag : string;
  attrs : gmap string value;
  children : value
}.

(** [props.name], [undefined] when the object has no such property. *)
Definition read (props : gmap string value) (name : string) : value :=
  default Undefined (props !! name).

(** [({ href, children, ...props }) =>
       <a href={href} target="_blank" rel="noopener noreferrer" {...props}>
         {children}
       </a>]:
    the rest object is every own property but [href] and [children]; the
    attributes are written left to right, so a property of the rest object
    replaces an attribute of the same name written before the spread. *)
Definition anchor (props : gmap string value) : element :=
  let href := read props "href" in
  let kids := read props "children" in
  let others := delete "children" (delete "href" props) in
  {| tag := "a";
     attrs := others ∪ <[ "rel" := Text "noopener noreferrer" ]>
                         (<[ "target" := Text "_blank" ]>
                            (<[ "href" := href ]> ∅));
     children := kids |}.

End JSX.

(** ** Sanity checks on concrete inputs *)

Example get_own_example :
  JS.get blogContent "sum-check" = JS.Str content_sum_check.
Proof. vm_compute. reflexivity. Qed.

Example get_inherited_example :
  JS.get blogContent "toString" = JS.Inherited "toString".
Proof. vm_compute. reflexivity. Qed.

Example get_missing_example :
  JS.get blogContent "does-not-exist" = JS.Undefined.
Proof. vm_compute. reflexivity. Qed.

(** ** The resolver, unfolded *)

Lemma Resolver_unfold posts contents slug :
  Resolver posts contents slug =
    match List.find (fun p => JS.strict_eq (id p) slug) posts with
    | None => PostNotFound
    | Some p =>
        if JS.truthy (content_of contents slug)
        then Article p (content_of contents slug)
        else PostNotFound
    end.
Proof.
  unfold Resolver, Pages.BlogPost, bind, blogPosts_find, blogContent_get, ret, content_of.
  destruct slug as [s|]; [destruct (JS.truthy_slug (Some s))|];
    cbv beta iota delta [fst snd catalog table];
    destruct (List.find _ posts); try reflexivity;
    destruct (JS.truthy _); reflexivity.
Qed.

Lemma strict_eq_true s slug : JS.strict_eq s slug = true ↔ slug = Some s.
Proof.
  destruct slug as [t|]; cbn [JS.strict_eq].
  - rewrite String.eqb_eq. split; [intros ->; reflexivity | intros [= ->]; reflexivity].
  - split; discriminate.
Qed.

(** [find] misses exactly when no record carries the identifier. *)
Lemma find_absent posts (slug : string) :
  (∀ p, p ∈ posts → id p ≠ slug) →
  List.find (fun p => JS.strict_eq (id p) (Some slug)) posts = None.
Proof.
  induction posts as [|q posts IH]; intros Hno; cbn [List.find]; [reflexivity|].
  destruct (JS.strict_eq (id q) (Some slug)) eqn:E.
  - apply strict_eq_true in E. injection E as E.
    exfalso. apply (Hno q); [left | symmetry; exact E].
  - apply IH. intros p Hp. apply Hno. right. exact Hp.
Qed.

(** With pairwise distinct identifiers, [find] returns the one record that
    carries the identifier. *)
Lemma find_present posts (p : BlogPost) :
  NoDup (map id posts) → p ∈ posts →
  List.find (fun q => JS.strict_eq (id q) (Some (id p))) posts = Some p.
Proof.
  induction posts as [|q posts IH]; intros Hnd Hin.
  - inversion Hin.
  - cbn [map] in Hnd. apply NoDup_cons in Hnd as [Hq Hnd].
    cbn [List.find].
    apply elem_of_cons in Hin as [->|Hin].
    + assert (JS.strict_eq (id q) (Some (id q)) = true) as ->
        by (apply strict_eq_true; reflexivity).
      reflexivity.
    + destruct (JS.strict_eq (id q) (Some (id p))) eqn:E.
      * apply strict_eq_true in E. injection E as E.
        exfalso. apply Hq. rewrite <- E. apply list_elem_of_fmap.
        exists p. split; [reflexivity | exact Hin].
      * apply IH; assumption.
Qed.

Lemma find_hit posts slug p :
  List.find (fun q => JS.strict_eq (id q) slug) posts = Some p →
  p ∈ posts ∧ slug = Some (id p).
Proof.
  intros H. apply List.find_some in H as [Hin E].
  split; [apply list_elem_of_In; exact Hin | apply strict_eq_true; exact E].
Qed.

(** What does hold on every pair of tables: a miss in the catalog, or a
    falsy value under the key, ends in the fallback. *)
Lemma resolver_fallback posts contents slug :
  List.find (fun p => JS.strict_eq (id p) slug) posts = None
  ∨ JS.truthy (content_of contents slug) = false →
  Resolver posts contents slug = PostNotFound.
Proof.
  rewrite Resolver_unfold. intros [-> | ->]; [reflexivity|].
  destruct (List.find _ posts); reflexivity.
Qed.

(** ** Resolving identifiers that are present *)

(** C1, as stated, fails: a key whose body is the empty string, and the empty
    identifier with a body, are both present in the two tables, and the
    page falls back to "Post not found" for each. *)
Lemma resolver_present_entry_counterexample :
  (probe_post "draft" ∈ [probe_post "draft"]
   ∧ (JS.object_literal [("draft", "")]) !! "draft" = Some ""
   ∧ Resolver [probe_post "draft"] (JS.object_literal [("draft", "")]) (Some "draft")
     = PostNotFound)
  ∧ (probe_post "" ∈ [probe_post ""]
     ∧ (JS.object_literal [("", "# Title")]) !! "" = Some "# Title"
     ∧ Resolver [probe_post ""] (JS.object_literal [("", "# Title")]) (Some "")
       = PostNotFound).
Proof.
  repeat split; try (apply list_elem_of_here); vm_compute; reflexivity.
Qed.

(** C1, amended: a non-empty identifier that is the id of a catalog record
    and an own key of the content table with a non-empty body resolves to a
    record carrying that identifier, which is that very record when the
    catalog's identifiers are pairwise distinct, and to exactly that body. *)
Theorem resolver_joins_present_entry
    (posts : list BlogPost) (contents : gmap string string)
    (slug : string) (p : BlogPost) (body : string) :
  p ∈ posts → id p = slug → slug ≠ "" →
  contents !! slug = Some body → body ≠ "" →
  ∃ found,
    Resolver posts contents (Some slug) = Article found (JS.Str body)
    ∧ found ∈ posts ∧ id found = slug
    ∧ (NoDup (map id posts) → found = p).
Proof.
  intros Hin Hid Hslug Hbody Hne.
  rewrite Resolver_unfold.
  destruct (List.find _ posts) as [found|] eqn:Hfind.
  - pose proof (find_hit posts (Some slug) found Hfind) as [Hfin [= Hfid]].
    exists found.
    unfold content_of, JS.truthy_slug, JS.get.
    apply String.eqb_neq in Hslug as ->. cbn [negb].
    rewrite Hbody. cbn [JS.truthy].
    apply String.eqb_neq in Hne as ->. cbn [negb].
    repeat split; [exact Hfin | symmetry; exact Hfid |].
    intros Hnd. subst slug.
    rewrite (find_present posts p Hnd Hin) in Hfind.
    injection Hfind as <-. reflexivity.
  - exfalso.
    assert (Hmiss : JS.strict_eq (id p) (Some slug) = false).
    { apply (List.find_none _ _ Hfind p), list_elem_of_In, Hin. }
    assert (Hhit : JS.strict_eq (id p) (Some slug) = true).
    { apply strict_eq_true. rewrite Hid. reflexivity. }
    congruence.
Qed.

Lemma resolver_joins_present_entry_witness :
  ∃ found,
    Resolver blogPosts blogContent (Some "indexer-allocation-1")
    = Article found (JS.Str content_indexer_allocation_1)
    ∧ found ∈ blogPosts ∧ id found = "indexer-allocation-1"
    ∧ (NoDup (map id blogPosts) → found = post_indexer_allocation_1).
Proof.
  apply (resolver_joins_present_entry blogPosts blogContent
           "indexer-allocation-1" post_indexer_allocation_1
           content_indexer_allocation_1).
  - do 8 apply list_elem_of_further. apply list_elem_of_here.
  - reflexivity.
  - discriminate.
  - vm_compute. reflexivity.
  - discriminate.
Defined.

(** ** Resolving identifiers that are absent *)

(** C2, at its failing input: the identifier is in the catalog and is no own
    key of the content table, yet the lookup hands back the inherited
    function, which is truthy, and the page renders the article branch. *)
Theorem resolver_inherited_member_is_rendered :
  unwritten_post ∈ shipped_and_unwritten
  ∧ blogContent !! "toString" = None
  ∧ Resolver shipped_and_unwritten blogContent (Some "toString")
    = Article unwritten_post (JS.Inherited "toString").
Proof.
  split; [|split].
  - unfold shipped_and_unwritten. apply elem_of_app. right. apply list_elem_of_here.
  - vm_compute. reflexivity.
  - vm_compute. reflexivity.
Qed.

(** C10: an identifier that no catalog record carries ends in the fallback
    whatever the content table yields under it, an inherited member
    included. *)
Theorem resolver_needs_catalog_record
    (posts : list BlogPost) (contents : gmap string string) (slug : string) :
  (∀ p, p ∈ posts → id p ≠ slug) →
  Resolver posts contents (Some slug) = PostNotFound.
Proof.
  intros Hno. apply resolver_fallback. left. apply find_absent. exact Hno.
Qed.

Lemma resolver_needs_catalog_record_witness :
  JS.truthy (JS.get blogContent "toString") = true
  ∧ Resolver blogPosts blogContent (Some "toString") = PostNotFound.
Proof.
  split.
  - vm_compute. reflexivity.
  - apply (resolver_needs_catalog_record blogPosts blogContent "toString").
    intros p Hp.
    repeat (apply elem_of_cons in Hp as [->|Hp]; [discriminate|]).
    inversion Hp.
Defined.

(** ** Totality and purity *)

Lemma resolver_cases posts contents slug :
  Resolver posts contents slug = PostNotFound
  ∨ ∃ p s, slug = Some s ∧ p ∈ posts ∧ id p = s
           ∧ JS.truthy (JS.get contents s) = true
           ∧ Resolver posts contents slug = Article p (JS.get contents s).
Proof.
  rewrite Resolver_unfold.
  destruct (List.find _ posts) as [p|] eqn:Hfind; [|left; reflexivity].
  apply find_hit in Hfind as [Hin ->].
  destruct (JS.truthy (content_of contents (Some (id p)))) eqn:Ht;
    [|left; reflexivity].
  right. exists p, (id p).
  unfold content_of in *.
  destruct (JS.truthy_slug (Some (id p))); [|discriminate Ht].
  repeat split; assumption || reflexivity.
Qed.

(** Every shipped identifier has a string body under its own key. *)
Lemma shipped_bodies p :
  p ∈ blogPosts → ∃ body, JS.get blogContent (id p) = JS.Str body.
Proof.
  intros Hp.
  repeat (apply elem_of_cons in Hp as [->|Hp];
          [eexists; vm_compute; reflexivity|]).
  inversion Hp.
Qed.

(** What does hold on every pair of tables: the resolver's result is the
    fallback or an article built from a catalog record with that identifier
    and the truthy value found under it; on the shipped tables that value is
    always an own string body. *)
Lemma resolver_total :
  (∀ posts contents slug,
     Resolver posts contents slug = PostNotFound
     ∨ ∃ p s, slug = Some s ∧ p ∈ posts ∧ id p = s
              ∧ JS.truthy (JS.get contents s) = true
              ∧ Resolver posts contents slug = Article p (JS.get contents s))
  ∧ (∀ slug,
       Resolver blogPosts blogContent slug = PostNotFound
       ∨ ∃ p body, slug = Some (id p) ∧ p ∈ blogPosts
                   ∧ blogContent !! id p = Some body
                   ∧ Resolver blogPosts blogContent slug = Article p (JS.Str body)).
Proof.
  split; [exact resolver_cases|].
  intros slug.
  destruct (resolver_cases blogPosts blogContent slug)
    as [Hnf | (p & s & -> & Hin & <- & _ & Heq)]; [left; exact Hnf|].
  right. destruct (shipped_bodies p Hin) as [body Hbody].
  exists p, body. rewrite Heq, Hbody.
  repeat split; try assumption.
  unfold JS.get in Hbody.
  destruct (blogContent !! id p) as [b|]; [congruence|].
  destruct (JS.on_prototype (id p)); discriminate.
Qed.

(** C6, at its failing input: for the identifier ["toString"], on the
    shipped tables with one catalog record of that identifier and no body,
    what the page returns is neither the fallback nor a record paired with a
    text body: the article branch is taken with the function inherited from
    [Object.prototype] in the place of the markdown. *)
Theorem resolver_third_outcome :
  Resolver shipped_and_unwritten blogContent (Some "toString") ≠ PostNotFound
  ∧ (∀ p body,
       Resolver shipped_and_unwritten blogContent (Some "toString")
       ≠ Article p (JS.Str body))
  ∧ ∃ p member,
      Resolver shipped_and_unwritten blogContent (Some "toString")
      = Article p (JS.Inherited member).
Proof.
  assert (Heval : Resolver shipped_and_unwritten blogContent (Some "toString")
                  = Article unwritten_post (JS.Inherited "toString"))
    by (vm_compute; reflexivity).
  rewrite Heval. split; [discriminate|]. split.
  - intros p body. discriminate.
  - exists unwritten_post, "toString". reflexivity.
Qed.

(** C7: a run of the page component hands back the store it was given, and
    a second run on the store left by the first renders the same thing. *)
Theorem resolver_pure (st : Store) (slug : option string) :
  snd (Pages.BlogPost slug st) = st
  ∧ snd (Pages.BlogPost slug (snd (Pages.BlogPost slug st))) = st
  ∧ fst (Pages.BlogPost slug (snd (Pages.BlogPost slug st)))
    = fst (Pages.BlogPost slug st).
Proof.
  assert (Hsame : snd (Pages.BlogPost slug st) = st).
  { unfold Pages.BlogPost, bind, blogPosts_find, blogContent_get, ret.
    destruct slug as [s|]; [destruct (JS.truthy_slug (Some s))|];
      cbv beta iota delta [fst snd];
      destruct (List.find _ (catalog st)); try reflexivity;
      destruct (JS.truthy _); reflexivity. }
  rewrite !Hsame. repeat split; reflexivity.
Qed.

(** ** The shipped tables *)

Lemma blogContent_dom :
  dom blogContent = (list_to_set (map id blogPosts) : gset string).
Proof. apply (bool_decide_unpack _). vm_compute. exact I. Qed.

(** On the shipped tables every catalog identifier resolves to its own
    record and its own body. *)
Lemma shipped_present_resolves (p : BlogPost) :
  p ∈ blogPosts →
  ∃ body, blogContent !! id p = Some body
          ∧ Resolver blogPosts blogContent (Some (id p)) = Article p (JS.Str body).
Proof.
  intros Hp.
  repeat (apply elem_of_cons in Hp as [->|Hp];
          [eexists; split; vm_compute; reflexivity|]).
  inversion Hp.
Qed.

(** On the shipped tables an identifier missing from either table ends in
    the fallback: no shipped identifier lacks a body. *)
Lemma shipped_absent_falls_back (slug : string) :
  (∀ p, p ∈ blogPosts → id p ≠ slug) ∨ blogContent !! slug = None →
  Resolver blogPosts blogContent (Some slug) = PostNotFound.
Proof.
  intros Habsent. apply resolver_fallback. left. apply find_absent.
  destruct Habsent as [Hno | Hnone]; [exact Hno|].
  intros p Hp Hid.
  apply not_elem_of_dom in Hnone. apply Hnone.
  rewrite blogContent_dom, elem_of_list_to_set, <- Hid.
  apply list_elem_of_fmap. exists p. split; [reflexivity | exact Hp].
Qed.

(** C5: the scenario for ["sum-check"]. *)
Theorem sum_check_resolves :
  ∃ p body,
    Resolver blogPosts blogContent (Some "sum-check") = Article p (JS.Str body)
    ∧ title p = "Introduction to the Sum-Check Protocol"
    ∧ String.prefix "### TL;DR" body = true.
Proof.
  exists post_sum_check, content_sum_check.
  repeat split; vm_compute; reflexivity.
Qed.

(** C8: no two records of the shipped catalog share an identifier. *)
Theorem blogPosts_ids_distinct : NoDup (map id blogPosts).
Proof. apply (bool_decide_unpack _). vm_compute. exact I. Qed.

(** C9: the own keys of the shipped content table are exactly the
    identifiers of the shipped catalog. *)
Theorem shipped_tables_agree :
  dom blogContent = list_to_set (map id blogPosts)
  ∧ ∀ key : string, is_Some (blogContent !! key) ↔ key ∈ map id blogPosts.
Proof.
  split; [exact blogContent_dom|].
  intros key. rewrite <- elem_of_dom, blogContent_dom, elem_of_list_to_set.
  reflexivity.
Qed.

(** ** The listing partition *)

Lemma ListingPartition_unfold posts :
  ListingPartition posts =
    {| featured_card := List.find is_featured posts;
       rest := List.filter (fun p => negb (is_featured p)) posts |}.
Proof. reflexivity. Qed.

Section FirstMatch.
Context {A : Type} (f : A → bool).

(** [find] splits the list at the first element that satisfies [f]. *)
Lemma find_splits (l : list A) (x : A) :
  List.find f l = Some x →
  ∃ before after,
    l = (before ++ x :: after)%list
    ∧ (∀ y, y ∈ before → f y = false) ∧ f x = true.
Proof.
  induction l as [|a l IH]; cbn [List.find]; [discriminate|].
  destruct (f a) eqn:Ha.
  - intros [= ->]. exists [], l. repeat split; [|exact Ha].
    intros y Hy. inversion Hy.
  - intros Hfind. destruct (IH Hfind) as (before & after & -> & Hb & Hx).
    exists (a :: before), after. repeat split; [|exact Hx].
    intros y Hy. apply elem_of_cons in Hy as [->|Hy]; [exact Ha | exact (Hb y Hy)].
Qed.

Lemma find_misses (l : list A) :
  List.find f l = None → ∀ y, y ∈ l → f y = false.
Proof.
  intros Hfind y Hy. apply (List.find_none f l Hfind).
  apply list_elem_of_In. exact Hy.
Qed.

Lemma filter_keeps_all (l : list A) :
  (∀ y, y ∈ l → f y = true) → List.filter f l = l.
Proof.
  induction l as [|a l IH]; intros Hall; cbn [List.filter]; [reflexivity|].
  rewrite (Hall a) by apply list_elem_of_here.
  f_equal. apply IH. intros y Hy. apply Hall. right. exact Hy.
Qed.

Lemma filter_drops_all (l : list A) :
  (∀ y, y ∈ l → f y = false) → List.filter f l = [].
Proof.
  induction l as [|a l IH]; intros Hall; cbn [List.filter]; [reflexivity|].
  rewrite (Hall a) by apply list_elem_of_here.
  apply IH. intros y Hy. apply Hall. right. exact Hy.
Qed.

Lemma filter_empty_inv (l : list A) :
  List.filter f l = [] → ∀ y, y ∈ l → f y = false.
Proof.
  induction l as [|a l IH]; intros Hnil y Hy; [inversion Hy|].
  cbn [List.filter] in Hnil. destruct (f a) eqn:Ha; [discriminate|].
  apply elem_of_cons in Hy as [->|Hy]; [exact Ha | exact (IH Hnil y Hy)].
Qed.

Lemma filter_sublist (l : list A) : List.filter f l `sublist_of` l.
Proof.
  induction l as [|a l IH]; cbn [List.filter]; [constructor|].
  destruct (f a); [apply sublist_skip | apply sublist_cons]; exact IH.
Qed.
End FirstMatch.

Lemma negb_flag_true (l : list BlogPost) :
  (∀ y, y ∈ l → is_featured y = false) →
  ∀ y, y ∈ l → negb (is_featured y) = true.
Proof. intros H y Hy. rewrite (H y Hy). reflexivity. Qed.


(** C3, as stated, fails: with two featured records the second one is not in
    the remainder, it is in neither part. *)
Lemma partition_second_featured_counterexample :
  let A := flagged "a" (Some true) in
  let B := flagged "b" (Some true) in
  let C := flagged "c" None in
  is_featured A = true ∧ is_featured B = true
  ∧ ListingPartition [A; B; C] = {| featured_card := Some A; rest := [C] |}
  ∧ B ∉ rest (ListingPartition [A; B; C]).
Proof.
  cbv zeta. repeat split.
  intros Hin. cbn in Hin.
  apply elem_of_cons in Hin as [Heq|Hin]; [discriminate Heq | inversion Hin].
Qed.

(** C3, amended: when more than one record is marked featured, the first of
    them in insertion order is the featured one, the remainder is the
    non-featured records in their insertion order, and the later featured
    records are in neither part. *)
Theorem partition_many_featured (posts : list BlogPost) :
  1 < length (List.filter is_featured posts) →
  ∃ before p after,
    posts = (before ++ p :: after)%list
    ∧ (∀ q, q ∈ before → is_featured q = false)
    ∧ is_featured p = true
    ∧ featured_card (ListingPartition posts) = Some p
    ∧ rest (ListingPartition posts)
      = List.filter (fun q => negb (is_featured q)) posts
    ∧ (∀ q, q ∈ rest (ListingPartition posts)
            ↔ q ∈ posts ∧ is_featured q = false)
    ∧ rest (ListingPartition posts) `sublist_of` posts
    ∧ (∃ q, q ∈ after ∧ is_featured q = true
            ∧ q ∉ rest (ListingPartition posts)).
Proof.
  intros Hmany. rewrite ListingPartition_unfold. cbn [featured_card rest].
  assert (Hmem : ∀ q, q ∈ List.filter (fun q => negb (is_featured q)) posts
                      ↔ q ∈ posts ∧ is_featured q = false).
  { intros q. rewrite !list_elem_of_In, List.filter_In, negb_true_iff.
    reflexivity. }
  destruct (List.find is_featured posts) as [p|] eqn:Hfind.
  - destruct (find_splits is_featured posts p Hfind)
      as (before & after & Hposts & Hbefore & Hp).
    exists before, p, after.
    repeat split; try assumption; try (apply Hmem; assumption).
    + apply filter_sublist.
    + rewrite Hposts, List.filter_app in Hmany. cbn [List.filter] in Hmany.
      rewrite Hp, (filter_drops_all is_featured before Hbefore) in Hmany.
      cbn in Hmany.
      destruct (List.filter is_featured after) as [|q others] eqn:Hafter;
        [cbn in Hmany; lia|].
      assert (Hq : List.In q (List.filter is_featured after))
        by (rewrite Hafter; left; reflexivity).
      apply List.filter_In in Hq as [Hq Hflag].
      exists q. split; [apply list_elem_of_In; exact Hq|].
      split; [exact Hflag|].
      intros Hin. apply Hmem in Hin as [_ Hfalse]. congruence.
  - rewrite (filter_drops_all is_featured posts
               (find_misses is_featured posts Hfind)) in Hmany.
    cbn in Hmany. lia.
Qed.

Lemma partition_many_featured_witness :
  ∃ before p after,
    [flagged "a" (Some true); flagged "b" (Some true); flagged "c" None]
    = (before ++ p :: after)%list
    ∧ (∀ q, q ∈ before → is_featured q = false)
    ∧ is_featured p = true
    ∧ featured_card
        (ListingPartition
           [flagged "a" (Some true); flagged "b" (Some true); flagged "c" None])
      = Some p
    ∧ rest
        (ListingPartition
           [flagged "a" (Some true); flagged "b" (Some true); flagged "c" None])
      = List.filter (fun q => negb (is_featured q))
          [flagged "a" (Some true); flagged "b" (Some true); flagged "c" None]
    ∧ (∀ q, q ∈ rest
                  (ListingPartition
                     [flagged "a" (Some true); flagged "b" (Some true);
                      flagged "c" None])
            ↔ q ∈ [flagged "a" (Some true); flagged "b" (Some true);
                   flagged "c" None]
              ∧ is_featured q = false)
    ∧ rest
        (ListingPartition
           [flagged "a" (Some true); flagged "b" (Some true); flagged "c" None])
      `sublist_of`
      [flagged "a" (Some true); flagged "b" (Some true); flagged "c" None]
    ∧ (∃ q, q ∈ after ∧ is_featured q = true
            ∧ q ∉ rest
                  (ListingPartition
                     [flagged "a" (Some true); flagged "b" (Some true);
                      flagged "c" None])).
Proof.
  apply (partition_many_featured
           [flagged "a" (Some true); flagged "b" (Some true); flagged "c" None]).
  vm_compute. lia.
Defined.

(** C4: with at most one record marked featured, the partition returns that
    record, or nothing when there is none, and all the other records in
    their insertion order; the scenario [A; B; C] with only [B] featured
    gives [B] and [A; C]. *)
Theorem partition_at_most_one_featured :
  (∀ posts : list BlogPost,
     length (List.filter is_featured posts) ≤ 1 →
     ((∀ p, p ∈ posts → is_featured p = false)
      ∧ ListingPartition posts = {| featured_card := None; rest := posts |})
     ∨ (∃ before p after,
          posts = (before ++ p :: after)%list
          ∧ is_featured p = true
          ∧ (∀ q, q ∈ (before ++ after)%list → is_featured q = false)
          ∧ ListingPartition posts
            = {| featured_card := Some p; rest := (before ++ after)%list |}))
  ∧ (∀ A B C : BlogPost,
       featured A = Some false → featured B = Some true →
       featured C = Some false →
       ListingPartition [A; B; C] = {| featured_card := Some B; rest := [A; C] |}).
Proof.
  split.
  - intros posts Hone. rewrite ListingPartition_unfold.
    destruct (List.find is_featured posts) as [p|] eqn:Hfind.
    + right.
      destruct (find_splits is_featured posts p Hfind)
        as (before & after & Hposts & Hbefore & Hp).
      assert (Hafter : ∀ q, q ∈ after → is_featured q = false).
      { apply filter_empty_inv.
        rewrite Hposts, List.filter_app in Hone. cbn [List.filter] in Hone.
        rewrite Hp, (filter_drops_all is_featured before Hbefore) in Hone.
        cbn in Hone.
        destruct (List.filter is_featured after); [reflexivity | cbn in Hone; lia]. }
      exists before, p, after. repeat split; try assumption.
      * intros q Hq. apply elem_of_app in Hq as [Hq|Hq]; auto.
      * f_equal. rewrite Hposts, List.filter_app. cbn [List.filter].
        rewrite Hp. cbn [negb].
        rewrite (filter_keeps_all _ before (negb_flag_true before Hbefore)).
        rewrite (filter_keeps_all _ after (negb_flag_true after Hafter)).
        reflexivity.
    + left. pose proof (find_misses is_featured posts Hfind) as Hnone.
      split; [exact Hnone|].
      f_equal. apply filter_keeps_all, negb_flag_true, Hnone.
  - intros A B C HA HB HC. rewrite ListingPartition_unfold.
    cbn [List.find List.filter]. unfold is_featured.
    rewrite HA, HB, HC. reflexivity.
Qed.

Lemma partition_at_most_one_featured_witness :
  ListingPartition
    [flagged "A" (Some false); flagged "B" (Some true); flagged "C" (Some false)]
  = {| featured_card := Some (flagged "B" (Some true));
       rest := [flagged "A" (Some false); flagged "C" (Some false)] |}
  ∧ (((∀ p, p ∈ blogPosts → is_featured p = false)
      ∧ ListingPartition blogPosts = {| featured_card := None; rest := blogPosts |})
     ∨ (∃ before p after,
          blogPosts = (before ++ p :: after)%list
          ∧ is_featured p = true
          ∧ (∀ q, q ∈ (before ++ after)%list → is_featured q = false)
          ∧ ListingPartition blogPosts
            = {| featured_card := Some p; rest := (before ++ after)%list |})).
Proof.
  split.
  - apply (proj2 partition_at_most_one_featured); reflexivity.
  - apply (proj1 partition_at_most_one_featured blogPosts).
    vm_compute. lia.
Defined.

(** ** The rendered listing *)

Lemma filter_split_length {A} (f : A → bool) (l : list A) :
  length (List.filter f l) + length (List.filter (fun x => negb (f x)) l)
  = length l.
Proof.
  induction l as [|a l IH]; cbn [List.filter]; [reflexivity|].
  destruct (f a); cbn [negb length]; lia.
Qed.

(** The shape of the partition on any catalog: nothing is featured and the
    remainder is the catalog, or the catalog splits at its first featured
    record and the remainder loses every featured record after it. *)
Lemma partition_shape (posts : list BlogPost) :
  (List.find is_featured posts = None
   ∧ List.filter (fun q => negb (is_featured q)) posts = posts
   ∧ List.filter is_featured posts = [])
  ∨ ∃ before p after,
      posts = (before ++ p :: after)%list
      ∧ (∀ q, q ∈ before → is_featured q = false)
      ∧ is_featured p = true
      ∧ List.find is_featured posts = Some p
      ∧ List.filter (fun q => negb (is_featured q)) posts
        = (before ++ List.filter (fun q => negb (is_featured q)) after)%list
      ∧ List.filter is_featured posts = p :: List.filter is_featured after.
Proof.
  destruct (List.find is_featured posts) as [p|] eqn:Hfind.
  - right.
    destruct (find_splits is_featured posts p Hfind)
      as (before & after & Hposts & Hbefore & Hp).
    exists before, p, after. repeat split; try assumption.
    + rewrite Hposts, List.filter_app. cbn [List.filter]. rewrite Hp. cbn [negb].
      rewrite (filter_keeps_all _ before (negb_flag_true before Hbefore)).
      reflexivity.
    + rewrite Hposts, List.filter_app. cbn [List.filter]. rewrite Hp.
      rewrite (filter_drops_all is_featured before Hbefore). reflexivity.
  - left. pose proof (find_misses is_featured posts Hfind) as Hnone.
    repeat split.
    + apply filter_keeps_all, negb_flag_true, Hnone.
    + apply filter_drops_all, Hnone.
Qed.

Lemma to_BlogCard (p : BlogPost) (flag : option bool) :
  to (BlogCard p flag) = link_of p.
Proof. unfold BlogCard. destruct (JS.truthy_flag flag); reflexivity. Qed.

Lemma badge_BlogCard (p : BlogPost) (flag : option bool) :
  badge (BlogCard p flag) = JS.truthy_flag flag.
Proof. unfold BlogCard. destruct (JS.truthy_flag flag); reflexivity. Qed.

Lemma link_of_inj (p q : BlogPost) : link_of p = link_of q → id p = id q.
Proof. unfold link_of. cbn. intros H. injection H as H. exact H. Qed.

Lemma ListingCards_unfold (posts : list BlogPost) :
  ListingCards posts = BlogGrid_children (ListingPartition posts).
Proof. reflexivity. Qed.

(** The cards are the cards of the shown records, in that order. *)
Lemma listing_links (posts : list BlogPost) :
  map (fun c => to (card c)) (ListingCards posts)
  = map link_of (shown_posts posts).
Proof.
  rewrite ListingCards_unfold. unfold BlogGrid_children, shown_posts.
  rewrite !map_app, map_map.
  assert (Hrest : map (fun q => to (card {| child_key := Some (id q);
                                            card := BlogCard q None |}))
                    (rest (ListingPartition posts))
                  = map link_of (rest (ListingPartition posts))).
  { apply map_ext. intros q. cbn [card]. apply to_BlogCard. }
  rewrite Hrest. f_equal.
  destruct (featured_card (ListingPartition posts)); [|reflexivity].
  cbn [map card]. rewrite to_BlogCard. reflexivity.
Qed.

Lemma listing_length (posts : list BlogPost) :
  length (ListingCards posts) = length (shown_posts posts).
Proof.
  rewrite <- (length_map (fun c => to (card c))), listing_links, length_map.
  reflexivity.
Qed.

(** The shown records are taken from the catalog, each at most as often as
    it occurs there. *)
Lemma shown_submseteq (posts : list BlogPost) : shown_posts posts ⊆+ posts.
Proof.
  unfold shown_posts. rewrite ListingPartition_unfold. cbn [featured_card rest].
  destruct (partition_shape posts)
    as [(-> & -> & _) | (before & p & after & Hposts & _ & _ & -> & -> & _)].
  - reflexivity.
  - rewrite Hposts. cbn [app].
    rewrite <- Permutation_middle.
    apply submseteq_skip, submseteq_skips_l, sublist_submseteq, filter_sublist.
Qed.

Lemma shown_permutation (posts : list BlogPost) :
  featured_count posts ≤ 1 → shown_posts posts ≡ₚ posts.
Proof.
  unfold featured_count, shown_posts. rewrite ListingPartition_unfold.
  cbn [featured_card rest].
  destruct (partition_shape posts)
    as [(-> & -> & _) | (before & p & after & Hposts & _ & _ & -> & -> & ->)].
  - reflexivity.
  - cbn [length]. intros Hone.
    assert (Hafter : ∀ q, q ∈ after → is_featured q = false).
    { apply filter_empty_inv.
      destruct (List.filter is_featured after); [reflexivity | cbn in Hone; lia]. }
    rewrite (filter_keeps_all _ after (negb_flag_true after Hafter)).
    rewrite Hposts. cbn [app]. apply Permutation_middle.
Qed.

Lemma listing_child_inv (posts : list BlogPost) (c : GridChild) :
  c ∈ ListingCards posts →
  ∃ p flag, p ∈ shown_posts posts ∧ card c = BlogCard p flag.
Proof.
  rewrite ListingCards_unfold. unfold BlogGrid_children, shown_posts.
  intros Hc. apply elem_of_app in Hc as [Hc|Hc].
  - destruct (featured_card (ListingPartition posts)) as [p|]; [|inversion Hc].
    apply list_elem_of_singleton in Hc as ->.
    exists p, (Some true). split; [|reflexivity].
    apply elem_of_app. left. apply list_elem_of_here.
  - apply list_elem_of_fmap in Hc as (p & -> & Hp).
    exists p, None. split; [|reflexivity].
    apply elem_of_app. right. exact Hp.
Qed.

Lemma ids_determine_records (posts : list BlogPost) (r q : BlogPost) :
  NoDup (map id posts) → r ∈ posts → q ∈ posts → id r = id q → r = q.
Proof.
  induction posts as [|a posts IH]; intros Hnd Hr Hq Hid; [inversion Hr|].
  cbn [map] in Hnd. apply NoDup_cons in Hnd as [Ha Hnd].
  apply elem_of_cons in Hr as [->|Hr]; apply elem_of_cons in Hq as [->|Hq].
  - reflexivity.
  - exfalso. apply Ha. rewrite Hid. apply list_elem_of_fmap.
    exists q. split; [reflexivity | exact Hq].
  - exfalso. apply Ha. rewrite <- Hid. apply list_elem_of_fmap.
    exists r. split; [reflexivity | exact Hr].
  - apply IH; assumption.
Qed.

Lemma shown_ids_distinct (posts : list BlogPost) :
  NoDup (map id posts) → NoDup (map id (shown_posts posts)).
Proof.
  intros Hnd.
  pose proof (shown_submseteq posts) as Hsub.
  apply (fmap_submseteq id) in Hsub.
  apply submseteq_Permutation in Hsub as [k Hk].
  change (map id posts ≡ₚ map id (shown_posts posts) ++ k) in Hk.
  rewrite Hk in Hnd. apply NoDup_app in Hnd as [Hshown _]. exact Hshown.
Qed.

(** A record resolves to itself and its body when the identifier and the
    body are non-empty and the identifiers are pairwise distinct. *)
Lemma resolver_hit posts (contents : gmap string string) p body :
  NoDup (map id posts) → p ∈ posts → id p ≠ "" →
  contents !! id p = Some body → body ≠ "" →
  Resolver posts contents (Some (id p)) = Article p (JS.Str body).
Proof.
  intros Hnd Hin Hslug Hbody Hne.
  rewrite Resolver_unfold, (find_present posts p Hnd Hin).
  unfold content_of, JS.truthy_slug, JS.get.
  apply String.eqb_neq in Hslug as ->. cbn [negb].
  rewrite Hbody. cbn [JS.truthy].
  apply String.eqb_neq in Hne as ->. reflexivity.
Qed.

(** X1: the listing shows one card per record, less one for every featured
    record after the first. *)
Theorem listing_card_count (posts : list BlogPost) :
  length (ListingCards posts) = length posts - pred (featured_count posts).
Proof.
  rewrite listing_length. unfold shown_posts, featured_count.
  rewrite ListingPartition_unfold. cbn [featured_card rest].
  destruct (partition_shape posts)
    as [(-> & -> & ->) | (before & p & after & Hposts & _ & _ & -> & -> & ->)].
  - cbn. lia.
  - rewrite Hposts. cbn [app length pred]. rewrite !length_app. cbn [length].
    pose proof (filter_split_length is_featured after). lia.
Qed.

(** X2: with at most one featured record, the links of the cards are the
    links of the catalog records, each exactly as often. *)
Theorem listing_links_cover_catalog (posts : list BlogPost) :
  featured_count posts ≤ 1 →
  map (fun c => to (card c)) (ListingCards posts) ≡ₚ map link_of posts.
Proof.
  intros Hone. rewrite listing_links.
  apply Permutation_map, shown_permutation, Hone.
Qed.

Lemma listing_links_cover_catalog_witness :
  map (fun c => to (card c)) (ListingCards blogPosts) ≡ₚ map link_of blogPosts.
Proof.
  apply (listing_links_cover_catalog blogPosts).
  vm_compute. lia.
Defined.

(** X3: only the first child can carry the "Featured" label, and a label is
    shown exactly when the catalog has a featured record. *)
Theorem listing_single_badge (posts : list BlogPost) :
  (∀ i c, ListingCards posts !! i = Some c → badge (card c) = true → i = 0)
  ∧ ((∃ c, c ∈ ListingCards posts ∧ badge (card c) = true)
     ↔ ∃ p, p ∈ posts ∧ is_featured p = true).
Proof.
  rewrite ListingCards_unfold. unfold BlogGrid_children.
  rewrite ListingPartition_unfold. cbn [featured_card rest].
  assert (Hplain : ∀ (l : list BlogPost) c,
             c ∈ map (fun post => {| child_key := Some (id post);
                                     card := BlogCard post None |}) l →
             badge (card c) = false).
  { intros l c Hc. apply list_elem_of_fmap in Hc as (q & -> & _).
    cbn [card]. apply badge_BlogCard. }
  destruct (List.find is_featured posts) as [p|] eqn:Hfind.
  - split.
    + intros [|i] c Hi Hb; [reflexivity|]. exfalso.
      cbn in Hi. apply list_elem_of_lookup_2, Hplain in Hi. congruence.
    + split.
      * intros _. apply find_splits in Hfind as (before & after & -> & _ & Hp).
        exists p. split; [|exact Hp].
        apply elem_of_app. right. apply list_elem_of_here.
      * intros _. eexists. split; [apply list_elem_of_here|].
        cbn [card]. apply badge_BlogCard.
  - split.
    + intros i c Hi Hb. exfalso.
      cbn [app] in Hi. apply list_elem_of_lookup_2, Hplain in Hi. congruence.
    + split.
      * intros (c & Hc & Hb). exfalso.
        cbn [app] in Hc. apply Hplain in Hc. congruence.
      * intros (q & Hq & Hflag). exfalso.
        rewrite (find_misses is_featured posts Hfind q Hq) in Hflag.
        discriminate.
Qed.

(** X4: the React keys of the mapped cards are pairwise distinct whenever the
    catalog identifiers are. *)
Theorem listing_keys_distinct (posts : list BlogPost) :
  NoDup (map id posts) → NoDup (omap child_key (ListingCards posts)).
Proof.
  intros Hnd. rewrite ListingCards_unfold. unfold BlogGrid_children.
  rewrite ListingPartition_unfold. cbn [featured_card rest].
  assert (Hkeys : ∀ l : list BlogPost,
             omap child_key
               (map (fun post => {| child_key := Some (id post);
                                    card := BlogCard post None |}) l)
             = map id l).
  { induction l as [|a l IH]; [reflexivity|]. cbn. f_equal. exact IH. }
  rewrite omap_app, Hkeys.
  assert (Hfirst : omap child_key
                     match List.find is_featured posts with
                     | Some p => [ {| child_key := None;
                                      card := BlogCard p (Some true) |} ]
                     | None => []
                     end = []).
  { destruct (List.find is_featured posts); reflexivity. }
  rewrite Hfirst. cbn [app].
  apply (sublist_NoDup _ (map id posts)); [exact Hnd|].
  apply (fmap_sublist id), filter_sublist.
Qed.

Lemma listing_keys_distinct_witness :
  NoDup (omap child_key (ListingCards blogPosts)).
Proof.
  apply (listing_keys_distinct blogPosts).
  apply (bool_decide_unpack _). vm_compute. exact I.
Defined.

(** X5: no two cards of the listing lead to the same page whenever the
    catalog identifiers are pairwise distinct. *)
Theorem listing_links_distinct (posts : list BlogPost) :
  NoDup (map id posts) → NoDup (map (fun c => to (card c)) (ListingCards posts)).
Proof.
  intros Hnd. rewrite listing_links.
  pose proof (shown_ids_distinct posts Hnd) as Hshown.
  induction (shown_posts posts) as [|a l IH]; [constructor|].
  cbn [map] in *. apply NoDup_cons in Hshown as [Ha Hl].
  apply NoDup_cons. split; [|exact (IH Hl)].
  intros Hin. apply list_elem_of_fmap in Hin as (q & Hlink & Hq).
  apply Ha. apply link_of_inj in Hlink. rewrite Hlink.
  apply list_elem_of_fmap. exists q. split; [reflexivity | exact Hq].
Qed.

Lemma listing_links_distinct_witness :
  NoDup (map (fun c => to (card c)) (ListingCards blogPosts)).
Proof.
  apply (listing_links_distinct blogPosts).
  apply (bool_decide_unpack _). vm_compute. exact I.
Defined.

(** X6: a card leads to the page of one record only: two cards, featured
    or not, share their link exactly when their records share the
    identifier. *)
Theorem card_link_identifies_record
    (p q : BlogPost) (flag_p flag_q : option bool) :
  to (BlogCard p flag_p) = to (BlogCard q flag_q) ↔ id p = id q.
Proof.
  rewrite !to_BlogCard. split; [apply link_of_inj|].
  unfold link_of. intros ->. reflexivity.
Qed.

(** X7: let the router be any function from paths to route parameters that
    hands the identifier of every catalog record back from its link.  When
    every catalog record has a non-empty identifier, pairwise distinct from
    the others, and a non-empty body under it, the slug the router extracts
    from the link of any card is the identifier of the record the card
    shows, and the page renders that record's article for it. *)
Theorem listing_cards_resolve
    (route : string → option string)
    (posts : list BlogPost) (contents : gmap string string) (c : GridChild) :
  NoDup (map id posts) →
  (∀ p, p ∈ posts →
        id p ≠ "" ∧ ∃ body, contents !! id p = Some body ∧ body ≠ "") →
  (∀ p, p ∈ posts → route ("/blog/" +:+ id p) = Some (id p)) →
  c ∈ ListingCards posts →
  ∃ p body,
    p ∈ posts
    ∧ card_title (card c) = title p
    ∧ route (to (card c)) = Some (id p)
    ∧ contents !! id p = Some body
    ∧ Resolver posts contents (route (to (card c))) = Article p (JS.Str body).
Proof.
  intros Hnd Hall Hroute Hc.
  apply listing_child_inv in Hc as (p & flag & Hp & Hcard).
  pose proof (elem_of_submseteq _ _ _ Hp (shown_submseteq posts)) as Hin.
  destruct (Hall p Hin) as (Hid & body & Hbody & Hne).
  assert (Hslug : route (to (card c)) = Some (id p)).
  { rewrite Hcard, to_BlogCard. apply Hroute, Hin. }
  exists p, body. rewrite Hslug.
  repeat split; try assumption.
  - rewrite Hcard. unfold BlogCard. destruct (JS.truthy_flag flag); reflexivity.
  - apply resolver_hit; assumption.
Qed.

Lemma listing_cards_resolve_witness :
  ∃ p body,
    p ∈ blogPosts
    ∧ card_title (BlogCard post_psi_fhe None) = title p
    ∧ literal_blog_route (to (BlogCard post_psi_fhe None)) = Some (id p)
    ∧ blogContent !! id p = Some body
    ∧ Resolver blogPosts blogContent
        (literal_blog_route (to (BlogCard post_psi_fhe None)))
      = Article p (JS.Str body).
Proof.
  apply (listing_cards_resolve literal_blog_route blogPosts blogContent
           {| child_key := Some "psi-fhe"; card := BlogCard post_psi_fhe None |}).
  - apply (bool_decide_unpack _). vm_compute. exact I.
  - intros p Hp.
    repeat (apply elem_of_cons in Hp as [->|Hp];
            [split; [discriminate|];
             eexists; split; [vm_compute; reflexivity | discriminate]|]).
    inversion Hp.
  - intros p Hp.
    repeat (apply elem_of_cons in Hp as [->|Hp]; [vm_compute; reflexivity|]).
    inversion Hp.
  - do 6 apply list_elem_of_further. apply list_elem_of_here.
Defined.

(** X8: with more than one featured record and pairwise distinct
    identifiers, some featured record of the catalog has no card at all: no
    card of the listing links to its page. *)
Theorem listing_drops_later_featured (posts : list BlogPost) :
  NoDup (map id posts) → 1 < featured_count posts →
  ∃ q, q ∈ posts ∧ is_featured q = true
       ∧ ∀ c, c ∈ ListingCards posts → to (card c) ≠ link_of q.
Proof.
  intros Hnd Hmany.
  assert (Hshape : ∃ before p after q,
             posts = (before ++ p :: after)%list
             ∧ (∀ r, r ∈ before → is_featured r = false)
             ∧ q ∈ after ∧ is_featured q = true
             ∧ shown_posts posts
               = (p :: before
                    ++ List.filter (fun r => negb (is_featured r)) after)%list).
  { unfold featured_count in Hmany. unfold shown_posts.
    rewrite ListingPartition_unfold. cbn [featured_card rest].
    destruct (partition_shape posts)
      as [(_ & _ & Hnil) | (before & p & after & Hposts & Hb & _ & -> & -> & Hf)].
    - rewrite Hnil in Hmany. cbn in Hmany. lia.
    - rewrite Hf in Hmany. cbn [length] in Hmany.
      destruct (List.filter is_featured after) as [|q others] eqn:Hafter;
        [cbn in Hmany; lia|].
      assert (Hq : List.In q (List.filter is_featured after))
        by (rewrite Hafter; left; reflexivity).
      apply List.filter_In in Hq as [Hq Hflag].
      exists before, p, after, q.
      repeat split; try assumption. apply list_elem_of_In, Hq. }
  destruct Hshape as (before & p & after & q & Hposts & Hbefore & Hq & Hflag & Hshown).
  assert (Hqin : q ∈ posts).
  { rewrite Hposts. apply elem_of_app. right. right. exact Hq. }
  exists q. repeat split; [exact Hqin | exact Hflag |].
  intros c Hc Hlink.
  apply listing_child_inv in Hc as (r & flag & Hr & Hcard).
  rewrite Hcard, to_BlogCard in Hlink. apply link_of_inj in Hlink.
  pose proof (elem_of_submseteq _ _ _ Hr (shown_submseteq posts)) as Hrin.
  assert (r = q) as -> by (apply (ids_determine_records posts); assumption).
  rewrite Hshown in Hr.
  apply elem_of_cons in Hr as [->|Hr].
  - apply NoDup_fmap_1 in Hnd. rewrite Hposts in Hnd.
    apply NoDup_app in Hnd as (_ & _ & Hnd).
    apply NoDup_cons in Hnd as [Hp _]. exact (Hp Hq).
  - apply elem_of_app in Hr as [Hr|Hr].
    + rewrite (Hbefore q Hr) in Hflag. discriminate.
    + apply list_elem_of_In, List.filter_In in Hr as [_ Hr].
      rewrite Hflag in Hr. discriminate.
Qed.

Lemma listing_drops_later_featured_witness :
  ∃ q, q ∈ [flagged "a" (Some true); flagged "b" (Some true); flagged "c" None]
       ∧ is_featured q = true
       ∧ ∀ c, c ∈ ListingCards
                    [flagged "a" (Some true); flagged "b" (Some true);
                     flagged "c" None] →
              to (card c) ≠ link_of q.
Proof.
  apply (listing_drops_later_featured
           [flagged "a" (Some true); flagged "b" (Some true); flagged "c" None]).
  - apply (bool_decide_unpack _). vm_compute. exact I.
  - vm_compute. lia.
Defined.

(** X9: the listing does not depend on the external URL of the records:
    two catalogs that agree record by record on everything else render the
    same children. *)
Theorem listing_ignores_url (posts posts' : list BlogPost) :
  Forall2 same_but_url posts posts' →
  ListingCards posts = ListingCards posts'.
Proof.
  intros Hsame. rewrite !ListingCards_unfold. unfold BlogGrid_children.
  rewrite !ListingPartition_unfold. cbn [featured_card rest].
  assert (Hcard : ∀ p q flag, same_but_url p q → BlogCard p flag = BlogCard q flag).
  { intros p q flag (Hi & Ht & He & Hc & Him & _). unfold BlogCard.
    rewrite Hi, Ht, He, Hc, Him. reflexivity. }
  assert (Hflag : ∀ p q, same_but_url p q → is_featured p = is_featured q).
  { intros p q (_ & _ & _ & _ & _ & Hf). unfold is_featured. rewrite Hf.
    reflexivity. }
  f_equal.
  - induction Hsame as [|p q l l' Hpq _ IH]; [reflexivity|].
    cbn [List.find]. rewrite <- (Hflag p q Hpq).
    destruct (is_featured p); [|exact IH].
    rewrite (Hcard p q _ Hpq). reflexivity.
  - induction Hsame as [|p q l l' Hpq _ IH]; [reflexivity|].
    cbn [List.filter]. rewrite <- (Hflag p q Hpq).
    destruct (is_featured p); cbn [negb map]; [exact IH|].
    rewrite IH, (Hcard p q _ Hpq).
    destruct Hpq as (-> & _). reflexivity.
Qed.

Lemma listing_ignores_url_witness :
  ListingCards [post_sum_check]
  = ListingCards
      [ {| id := id post_sum_check;
           title := title post_sum_check;
           excerpt := excerpt post_sum_check;
           category := category post_sum_check;
           image := image post_sum_check;
           url := "https://example.org/elsewhere";
           featured := featured post_sum_check |} ].
Proof.
  apply (listing_ignores_url [post_sum_check]).
  repeat constructor.
Defined.

(** ** Edge inputs and frame properties of the resolver *)

(** X10: without a route parameter, or with the empty one, the page is the
    fallback whatever the two tables hold, even a record and a body filed
    under the empty identifier. *)
Theorem resolver_rejects_missing_and_empty_slug
    (posts : list BlogPost) (contents : gmap string string) :
  Resolver posts contents None = PostNotFound
  ∧ Resolver posts contents (Some "") = PostNotFound.
Proof.
  split; apply resolver_fallback; right; reflexivity.
Qed.

Lemma find_skips_other (l1 l2 : list BlogPost) (q : BlogPost) (slug : string) :
  id q ≠ slug →
  List.find (fun p => JS.strict_eq (id p) (Some slug)) (l1 ++ q :: l2)
  = List.find (fun p => JS.strict_eq (id p) (Some slug)) (l1 ++ l2).
Proof.
  intros Hq. induction l1 as [|a l1 IH]; cbn [app List.find].
  - destruct (JS.strict_eq (id q) (Some slug)) eqn:E; [|reflexivity].
    apply strict_eq_true in E. injection E as E. congruence.
  - destruct (JS.strict_eq (id a) (Some slug)); [reflexivity | exact IH].
Qed.

(** X11: adding a record to the catalog, or removing one, at any position,
    leaves the page of every other identifier as it was. *)
Theorem resolver_catalog_frame
    (before after : list BlogPost) (q : BlogPost)
    (contents : gmap string string) (slug : string) :
  id q ≠ slug →
  Resolver (before ++ q :: after) contents (Some slug)
  = Resolver (before ++ after) contents (Some slug).
Proof.
  intros Hq. rewrite !Resolver_unfold, (find_skips_other before after q slug Hq).
  reflexivity.
Qed.

Lemma resolver_catalog_frame_witness :
  Resolver ([] ++ probe_post "draft" :: blogPosts) blogContent (Some "sum-check")
  = Resolver ([] ++ blogPosts) blogContent (Some "sum-check").
Proof.
  apply (resolver_catalog_frame [] blogPosts (probe_post "draft") blogContent
           "sum-check").
  discriminate.
Defined.

(** X12: writing or deleting the body of one identifier leaves the page of
    every other identifier as it was. *)
Theorem resolver_table_frame
    (posts : list BlogPost) (contents : gmap string string)
    (key body slug : string) :
  key ≠ slug →
  Resolver posts (<[ key := body ]> contents) (Some slug)
  = Resolver posts contents (Some slug)
  ∧ Resolver posts (delete key contents) (Some slug)
    = Resolver posts contents (Some slug).
Proof.
  intros Hkey. rewrite !Resolver_unfold. unfold content_of, JS.get.
  rewrite (lookup_insert_ne contents key slug body Hkey).
  rewrite (lookup_delete_ne contents key slug Hkey).
  split; reflexivity.
Qed.

Lemma resolver_table_frame_witness :
  Resolver blogPosts (<[ "draft" := "# Draft" ]> blogContent) (Some "psi-fhe")
  = Resolver blogPosts blogContent (Some "psi-fhe")
  ∧ Resolver blogPosts (delete "draft" blogContent) (Some "psi-fhe")
    = Resolver blogPosts blogContent (Some "psi-fhe").
Proof.
  apply (resolver_table_frame blogPosts blogContent "draft" "# Draft" "psi-fhe").
  discriminate.
Defined.

(** ** The anchor override *)

(** X13: the anchor keeps the [href] and the children it was given, whatever
    else it receives, and sets no attribute other than [href], [target],
    [rel] and the properties it received. *)
Theorem anchor_href_and_children (props : gmap string JSX.value) :
  JSX.tag (JSX.anchor props) = "a"
  ∧ JSX.attrs (JSX.anchor props) !! "href" = Some (JSX.read props "href")
  ∧ JSX.children (JSX.anchor props) = JSX.read props "children"
  ∧ ∀ name, is_Some (JSX.attrs (JSX.anchor props) !! name) →
            name = "href" ∨ name = "target" ∨ name = "rel"
            ∨ is_Some (props !! name).
Proof.
  unfold JSX.anchor. cbn [JSX.tag JSX.attrs JSX.children].
  repeat split.
  - apply lookup_union_Some_raw. right. split.
    + rewrite lookup_delete_ne by discriminate. apply lookup_delete_eq.
    + rewrite !lookup_insert_ne by discriminate. apply lookup_insert_eq.
  - intros name [v Hv].
    apply lookup_union_Some_raw in Hv as [Hv | [_ Hv]].
    + right. right. right.
      apply lookup_delete_Some in Hv as [_ Hv].
      apply lookup_delete_Some in Hv as [_ Hv]. exists v. exact Hv.
    + destruct (decide (name = "rel")) as [->|Hrel]; [auto|].
      rewrite lookup_insert_ne in Hv by congruence.
      destruct (decide (name = "target")) as [->|Htarget]; [auto|].
      rewrite lookup_insert_ne in Hv by congruence.
      destruct (decide (name = "href")) as [->|Hhref]; [auto|].
      rewrite lookup_insert_ne in Hv by congruence.
      rewrite lookup_empty in Hv. discriminate.
Qed.

(** X14: when the received properties name neither [target] nor [rel], the
    link opens in a new tab and is marked [noopener noreferrer]. *)
Theorem anchor_defaults (props : gmap string JSX.value) :
  props !! "target" = None → props !! "rel" = None →
  JSX.attrs (JSX.anchor props) !! "target" = Some (JSX.Text "_blank")
  ∧ JSX.attrs (JSX.anchor props) !! "rel" = Some (JSX.Text "noopener noreferrer").
Proof.
  intros Htarget Hrel. unfold JSX.anchor. cbn [JSX.attrs].
  split; apply lookup_union_Some_raw; right; split.
  - rewrite !lookup_delete_ne by discriminate. exact Htarget.
  - rewrite lookup_insert_ne by discriminate. apply lookup_insert_eq.
  - rewrite !lookup_delete_ne by discriminate. exact Hrel.
  - apply lookup_insert_eq.
Qed.

Lemma anchor_defaults_witness :
  JSX.attrs
    (JSX.anchor (<[ "href" := JSX.Text "https://github.com/semiotic-ai/cctp-rs" ]>
                   (<[ "children" := JSX.Other "cctp-rs" ]> ∅)))
    !! "target" = Some (JSX.Text "_blank")
  ∧ JSX.attrs
      (JSX.anchor (<[ "href" := JSX.Text "https://github.com/semiotic-ai/cctp-rs" ]>
                     (<[ "children" := JSX.Other "cctp-rs" ]> ∅)))
      !! "rel" = Some (JSX.Text "noopener noreferrer").
Proof.
  apply (anchor_defaults
           (<[ "href" := JSX.Text "https://github.com/semiotic-ai/cctp-rs" ]>
              (<[ "children" := JSX.Other "cctp-rs" ]> ∅)));
    vm_compute; reflexivity.
Defined.

(** X15: every received property other than [href] and [children] reaches
    the element unchanged; a received [target] or [rel], even an undefined
    one, replaces the value the component writes. *)
Theorem anchor_spread_wins
    (props : gmap string JSX.value) (name : string) (v : JSX.value) :
  name ≠ "href" → name ≠ "children" → props !! name = Some v →
  JSX.attrs (JSX.anchor props) !! name = Some v.
Proof.
  intros Hhref Hchildren Hv. unfold JSX.anchor. cbn [JSX.attrs].
  apply lookup_union_Some_raw. left.
  rewrite !lookup_delete_ne by congruence. exact Hv.
Qed.

Lemma anchor_spread_wins_witness :
  JSX.attrs
    (JSX.anchor (<[ "target" := JSX.Undefined ]>
                   (<[ "href" := JSX.Text "/" ]> ∅)))
    !! "target" = Some JSX.Undefined.
Proof.
  apply (anchor_spread_wins
           (<[ "target" := JSX.Undefined ]> (<[ "href" := JSX.Text "/" ]> ∅))
           "target" JSX.Undefined).
  - discriminate.
  - discriminate.
  - vm_compute. reflexivity.
Defined.

(** ** What the components never do *)

(** X16: the listing never links to a page that is not a catalog record's,
    and never links to one more often than the catalog holds it. *)
Theorem listing_links_from_catalog (posts : list BlogPost) :
  map (fun c => to (card c)) (ListingCards posts) ⊆+ map link_of posts.
Proof.
  rewrite listing_links. apply (fmap_submseteq link_of), shown_submseteq.
Qed.

(** X17: an article with a text body is rendered only from the tables' own
    entries: the identifier is non-empty, the body is the non-empty own entry
    of the content table under it, and the record is the first one of the
    catalog that carries it. *)
Theorem resolver_article_sound
    (posts : list BlogPost) (contents : gmap string string)
    (slug : option string) (p : BlogPost) (body : string) :
  Resolver posts contents slug = Article p (JS.Str body) →
  ∃ s before after,
    slug = Some s ∧ s ≠ "" ∧ id p = s
    ∧ posts = (before ++ p :: after)%list
    ∧ (∀ q, q ∈ before → id q ≠ s)
    ∧ contents !! s = Some body ∧ body ≠ "".
Proof.
  rewrite Resolver_unfold.
  destruct (List.find _ posts) as [found|] eqn:Hfind; [|discriminate].
  destruct (JS.truthy (content_of contents slug)) eqn:Htruthy; [|discriminate].
  intros [= -> Hcontent].
  apply find_splits in Hfind as (before & after & Hposts & Hbefore & Hp).
  apply strict_eq_true in Hp as ->.
  unfold content_of, JS.truthy_slug in Hcontent.
  destruct (negb (String.eqb (id p) "")) eqn:Hslug; [|discriminate].
  apply negb_true_iff, String.eqb_neq in Hslug.
  unfold JS.get in Hcontent.
  destruct (contents !! id p) as [b|] eqn:Hlookup;
    [|destruct (JS.on_prototype (id p)); discriminate].
  injection Hcontent as ->.
  exists (id p), before, after. repeat split; try assumption.
  - intros q Hq Hid. specialize (Hbefore q Hq).
    assert (JS.strict_eq (id q) (Some (id p)) = true)
      by (apply strict_eq_true; rewrite Hid; reflexivity).
    congruence.
  - intros ->. unfold content_of, JS.truthy_slug, JS.get in Htruthy.
    apply String.eqb_neq in Hslug. rewrite Hslug in Htruthy. cbn [negb] in Htruthy.
    rewrite Hlookup in Htruthy. discriminate.
Qed.

Lemma resolver_article_sound_witness :
  ∃ s before after,
    Some "sum-check" = Some s ∧ s ≠ "" ∧ id post_sum_check = s
    ∧ blogPosts = (before ++ post_sum_check :: after)%list
    ∧ (∀ q, q ∈ before → id q ≠ s)
    ∧ blogContent !! s = Some content_sum_check ∧ content_sum_check ≠ "".
Proof.
  apply (resolver_article_sound blogPosts blogContent (Some "sum-check")
           post_sum_check content_sum_check).
  vm_compute. reflexivity.
Defined.
